(** * axon: the record/playback log and the NumberProperty state adapter

    A shallow embedding of [Log] (the recorder: [replacer], [reviver],
    [registerProperty], [clear], [stepUntil]) and of [NumberPropertyIO]
    ([fromStateObject], [toStateObject]), with the properties of the
    specification stated over it. *)

From Stdlib Require Import ZArith String List Lia Bool.
From Stdlib Require Import DecimalString Sorted.
From stdpp Require Import base list strings gmap.

Set Warnings "-register-all".

Local Open Scope string_scope.
Local Open Scope Z_scope.

(** ** JavaScript values *)

(** Numbers.  Ids, cursors and epoch-millisecond times are integers, so the
    finite numbers of the model are the integers; the non-finite numbers are
    kept because the serializer treats them differently. *)
Inductive number :=
| Int (z : Z)
| NaN
| PosInfinity
| NegInfinity.

(** A value is a primitive, an array, a plain data object (an object literal
    or the result of parsing: it has no identity of its own and is compared
    by structure), or a handle [VRef l] to a live object of the store.
    [ctor] is [constructor.name]; fields are kept in insertion order. *)
Inductive val :=
| VUndefined
| VNull
| VBool (b : bool)
| VNum (n : number)
| VStr (s : string)
| VArr (elems : list val)
| VObj (ctor : string) (fields : list (string * val))
| VRef (l : nat).

(** A JSON text, represented by the syntax tree it denotes: the built-in
    printer and parser are inverse to each other on texts the printer
    produced, and the program only ever inspects such a text for
    truthiness (a JSON text is never the empty string). *)
Inductive json :=
| JNull
| JBool (b : bool)
| JNum (z : Z)
| JStr (s : string)
| JArr (elems : list json)
| JObj (members : list (string * json)).

(** The callbacks a property can hold.  The only callback this program
    creates is the closure of [registerProperty], which captures [index]. *)
Inductive listener :=
| RecordChange (index : nat).

(** A live object: a Property.  Its listeners are functions and are never
    enumerated. *)
Record object := {
  o_ctor : string;
  o_fields : list (string * val);
  o_listeners : list listener
}.

(** The store of live objects, indexed by handle. *)
Abbreviation heap := (list object).

(** ** Exceptions *)

Inductive error :=
| TypeError    (* a member access or a call on [undefined]; a cyclic structure *)
| RangeError   (* the call stack of the engine is exhausted *)
| SyntaxError. (* the text given to the parser is not JSON *)

(** The result of a computation that reads the store but does not change it. *)
Inductive res (A : Type) :=
| Val (a : A)
| Exn (e : error).
Arguments Val {A} a.
Arguments Exn {A} e.

Definition res_bind {A B : Type} (r : res A) (k : A -> res B) : res B :=
  match r with
  | Val a => k a
  | Exn e => Exn e
  end.

(** ** Field access and coercions *)

(** [obj.k] on a field list: the first binding of [k], else [undefined]. *)
Fixpoint assoc (k : string) (fs : list (string * val)) : val :=
  match fs with
  | [] => VUndefined
  | (k', v) :: fs' => if String.eqb k k' then v else assoc k fs'
  end.

(** [obj.k = v]: overwrite the binding in place, or append a new one. *)
Fixpoint assign (k : string) (v : val) (fs : list (string * val))
  : list (string * val) :=
  match fs with
  | [] => [(k, v)]
  | (k', v') :: fs' =>
      if String.eqb k k' then (k, v) :: fs' else (k', v') :: assign k v fs'
  end.

(** [value.k] for a value that passed a truthiness test.  Primitives and
    arrays have none of the fields the program reads ([cid], [jsonClass],
    [x], [y]). *)
Definition get_field (h : heap) (v : val) (k : string) : val :=
  match v with
  | VObj _ fs => assoc k fs
  | VRef l =>
      match h !! l with
      | Some o => assoc k (o_fields o)
      | None => VUndefined
      end
  | _ => VUndefined
  end.

(** The own field [k] of a field list, when there is one: an own field
    that holds [undefined] is still a field. *)
Fixpoint own_field (k : string) (fs : list (string * val)) : option val :=
  match fs with
  | [] => None
  | (k', v) :: fs' => if String.eqb k k' then Some v else own_field k fs'
  end.

(** The own field [k] of a value; primitives and arrays have none of the
    names the program reads. *)
Definition own (h : heap) (v : val) (k : string) : option val :=
  match v with
  | VObj _ fs => own_field k fs
  | VRef l =>
      match h !! l with
      | Some o => own_field k (o_fields o)
      | None => None
      end
  | _ => None
  end.

(** The name of the constructor a value inherits, for a value that passed
    a truthiness test. *)
Definition constructor_name (h : heap) (v : val) : string :=
  match v with
  | VBool _ => "Boolean"
  | VNum _ => "Number"
  | VStr _ => "String"
  | VArr _ => "Array"
  | VObj c _ => c
  | VRef l =>
      match h !! l with
      | Some o => o_ctor o
      | None => ""
      end
  | VUndefined | VNull => ""
  end.

(** [v === 'text'] against a string literal. *)
Definition is_string (text : string) (v : val) : bool :=
  match v with
  | VStr s => String.eqb s text
  | _ => false
  end.

(** [value.constructor.name === text] for a value that passed a
    truthiness test.  An own field named [constructor] comes before the
    inherited constructor, and reading [name] off [undefined] or [null]
    throws. *)
Definition constructor_named (h : heap) (text : string) (v : val) : res bool :=
  match own h v "constructor" with
  | Some VUndefined | Some VNull => Exn TypeError
  | Some c => Val (is_string text (get_field h c "name"))
  | None => Val (String.eqb (constructor_name h v) text)
  end.

(** ToBoolean. *)
Definition truthy (v : val) : bool :=
  match v with
  | VUndefined | VNull => false
  | VBool b => b
  | VNum (Int z) => negb (z =? 0)
  | VNum NaN => false
  | VNum _ => true
  | VStr s => negb (String.eqb s "")
  | VArr _ | VObj _ _ | VRef _ => true
  end.

(** The decimal spelling of an array index. *)
Definition index_key (i : nat) : string :=
  NilEmpty.string_of_uint (Nat.to_uint i).

(** The array index a property key denotes.  The key is converted to a
    string first: a non-negative integer and the canonical decimal string
    of one denote an index, and so does an array of one element that
    does, whose string is that of its element.  [None] is the answer
    [undefined] for every number, boolean, [null] and [undefined]; the
    names an array inherits ([length], the methods) and objects that
    bring their own [toString] are outside the model. *)
Fixpoint array_index (k : val) : option nat :=
  match k with
  | VNum (Int z) => if 0 <=? z then Some (Z.to_nat z) else None
  | VStr s =>
      match NilEmpty.uint_of_string s with
      | Some d =>
          let n := Nat.of_uint d in
          if String.eqb (index_key n) s then Some n else None
      | None => None
      end
  | VArr [x] => array_index x
  | _ => None
  end.

(** [arr[k]]: [None] stands for [undefined]. *)
Definition array_get {A : Type} (arr : list A) (k : val) : option A :=
  match array_index k with
  | Some i => arr !! i
  | None => None
  end.

(** ** The JSON hooks of the recorder *)

Definition property_reference (cid : val) : val :=
  VObj "Object" [("jsonClass", VStr "Property"); ("cid", cid)].

(** [Log.replacer]. *)
Definition replacer (h : heap) (key : string) (value : val) : res val :=
  if truthy value && truthy (get_field h value "cid") then
    Val (property_reference (get_field h value "cid"))
  else if truthy value then
    res_bind (constructor_named h "Vector2" value) (fun vector =>
    if vector then
      Val (VObj "Object" [("x", get_field h value "x");
                          ("y", get_field h value "y");
                          ("jsonClass", VStr "Vector2")])
    else Val value)
  else Val value.

(** [Log.reviver]; [properties] is the registry [log.properties], a list of
    handles. *)
Definition reviver (h : heap) (properties : list nat)
    (key : string) (value : val) : val :=
  if truthy value && truthy (get_field h value "jsonClass")
     && is_string "Property" (get_field h value "jsonClass") then
    match array_get properties (get_field h value "cid") with
    | Some l => VRef l
    | None => VUndefined
    end
  else if truthy value && truthy (get_field h value "jsonClass")
          && is_string "Vector2" (get_field h value "jsonClass") then
    VObj "Object" [("x", get_field h value "x"); ("y", get_field h value "y")]
  else value.

(** ** The built-in serializer and parser, with their hooks *)

Section Serializer.
Variable ser : string -> val -> res (option json).

(** The elements of an array: an element that serializes to [undefined]
    is written as [null]. *)
Fixpoint serialize_elements (i : nat) (elems : list val) : res (list json) :=
  match elems with
  | [] => Val []
  | v :: elems' =>
      res_bind (ser (index_key i) v) (fun j =>
      res_bind (serialize_elements (S i) elems') (fun js =>
      Val (default JNull j :: js)))
  end.

(** The members of an object: a member that serializes to [undefined] is
    left out. *)
Fixpoint serialize_members (fs : list (string * val))
  : res (list (string * json)) :=
  match fs with
  | [] => Val []
  | (k, v) :: fs' =>
      res_bind (ser k v) (fun j =>
      res_bind (serialize_members fs') (fun ms =>
      Val (match j with Some j' => (k, j') :: ms | None => ms end)))
  end.
End Serializer.

(** SerializeJSONProperty: the hook [rp] sees every value before it is
    written.  [stack] holds the live objects being written, a live object
    met again is a cycle.  [depth] is the call-stack budget of the engine. *)
Fixpoint SerializeJSONProperty (depth : nat) (h : heap)
    (rp : string -> val -> res val) (stack : list nat)
    (key : string) (holder_value : val) : res (option json) :=
  match depth with
  | O => Exn RangeError
  | S d =>
      res_bind (rp key holder_value) (fun value =>
      match value with
      | VUndefined => Val None
      | VNull => Val (Some JNull)
      | VBool b => Val (Some (JBool b))
      | VNum (Int z) => Val (Some (JNum z))
      | VNum _ => Val (Some JNull)
      | VStr s => Val (Some (JStr s))
      | VArr elems =>
          res_bind
            (serialize_elements (SerializeJSONProperty d h rp stack) 0 elems)
            (fun js => Val (Some (JArr js)))
      | VObj _ fs =>
          res_bind
            (serialize_members (SerializeJSONProperty d h rp stack) fs)
            (fun ms => Val (Some (JObj ms)))
      | VRef l =>
          if existsb (Nat.eqb l) stack then Exn TypeError
          else
            res_bind
              (serialize_members (SerializeJSONProperty d h rp (l :: stack))
                 (match h !! l with Some o => o_fields o | None => [] end))
              (fun ms => Val (Some (JObj ms)))
      end)
  end.

(** [JSON.stringify( value, replacer )]; [None] is the result [undefined]. *)
Definition JSON_stringify (depth : nat) (h : heap)
    (rp : string -> val -> res val) (value : val) : res (option json) :=
  SerializeJSONProperty depth h rp [] "" value.

(** Members whose revived value is [undefined] are deleted. *)
Definition is_defined (kv : string * val) : bool :=
  match snd kv with
  | VUndefined => false
  | _ => true
  end.

(** InternalizeJSONProperty: the hook [rv] sees every parsed value, the
    innermost first.  A deleted array element is a hole, which reads as
    [undefined]. *)
Fixpoint InternalizeJSONProperty (rv : string -> val -> val)
    (name : string) (text : json) : val :=
  rv name
    match text with
    | JNull => VNull
    | JBool b => VBool b
    | JNum z => VNum (Int z)
    | JStr s => VStr s
    | JArr elems =>
        VArr ((fix internalize_elements (i : nat) (js : list json) :=
                 match js with
                 | [] => []
                 | j :: js' =>
                     InternalizeJSONProperty rv (index_key i) j
                       :: internalize_elements (S i) js'
                 end) 0%nat elems)
    | JObj members =>
        VObj "Object"
          (List.filter is_defined
             ((fix internalize_members (ms : list (string * json)) :=
                 match ms with
                 | [] => []
                 | (k, j) :: ms' =>
                     (k, InternalizeJSONProperty rv k j)
                       :: internalize_members ms'
                 end) members))
    end.

(** [JSON.parse( text, reviver )]. *)
Definition JSON_parse (text : json) (rv : string -> val -> val) : val :=
  InternalizeJSONProperty rv "" text.

(** ** Log entries *)

(** One element of the entry log.  A field that is absent reads as
    [undefined]: [VUndefined] for the ids and the event, [None] for the
    serialized [value]. *)
Record Entry := {
  e_time : Z;
  e_type : string;
  e_index : val;
  e_cid : val;
  e_action : string;
  e_value : option json;
  e_event : val;
  e_collectionCid : val
}.

(** The entry the recording listener builds:
    [{time, type: 'property', index, action: 'change', value}]. *)
Definition change_entry (now : Z) (index : nat) (text : option json) : Entry :=
  {| e_time := now; e_type := "property"; e_index := VNum (Int (Z.of_nat index));
     e_cid := VUndefined; e_action := "change"; e_value := text;
     e_event := VUndefined; e_collectionCid := VUndefined |}.

(** What [console.log( 'missing value for index: ', logIndex, entry )]
    prints. *)
Record diagnostic := {
  d_message : string;
  d_logIndex : nat;
  d_entry : Entry
}.

(** The observable-collection capability the replayer consumes; the
    collections themselves are supplied by the property framework. *)
Class Collection (C : Type) := {
  collection_add : val -> C -> C;
  collection_remove : val -> C -> C;
  collection_reset : C -> C;
  collection_sort : C -> C
}.

(** ** The recorder *)

Section Recorder.
Context {C : Type} `{Collection C}.

(** The fields of a [Log] object.  [collection] is the field that
    [clear] creates; it is absent until then. *)
Record Log := {
  enabled : bool;
  properties : list nat;
  collections : list C;
  propertySets : list val;
  entries : list Entry;
  collection : option (list C)
}.

(** [new Log()]; [log_parameter] is the truthiness of the [log] query
    parameter. *)
Definition new_Log (log_parameter : bool) : Log :=
  {| enabled := log_parameter; properties := []; collections := [];
     propertySets := []; entries := []; collection := None |}.

(** The state a call runs in: the live objects, the singleton recorder
    and the console. *)
Record world := {
  store : heap;
  log : Log;
  console : list diagnostic
}.

(** A call returns a value or throws; either way it leaves a state. *)
Inductive outcome (A : Type) :=
| Returns (a : A) (w : world)
| Throws (e : error) (w : world).
Arguments Returns {A} a w.
Arguments Throws {A} e w.

Definition M (A : Type) : Type := world -> outcome A.

Definition ret {A : Type} (a : A) : M A := fun w => Returns a w.

Definition bind {A B : Type} (m : M A) (k : A -> M B) : M B :=
  fun w =>
    match m w with
    | Returns a w' => k a w'
    | Throws e w' => Throws e w'
    end.

Definition throw {A : Type} (e : error) : M A := fun w => Throws e w.

Definition gets {A : Type} (f : world -> A) : M A := fun w => Returns (f w) w.

Definition modify (f : world -> world) : M unit := fun w => Returns tt (f w).

Definition lift {A : Type} (r : res A) : M A :=
  match r with
  | Val a => ret a
  | Exn e => throw e
  end.

Definition final {A : Type} (o : outcome A) : world :=
  match o with
  | Returns _ w => w
  | Throws _ w => w
  end.

Definition with_store (f : heap -> heap) (w : world) : world :=
  {| store := f (store w); log := log w; console := console w |}.

Definition with_log (f : Log -> Log) (w : world) : world :=
  {| store := store w; log := f (log w); console := console w |}.

Definition with_console (f : list diagnostic -> list diagnostic) (w : world)
  : world :=
  {| store := store w; log := log w; console := f (console w) |}.

(** The engine's call-stack budget for the serializer, and the event
    dispatch [property.trigger( event )] of the property framework. *)
Variable stack_depth : nat.
Variable trigger : nat -> val -> M unit.

(** *** The property framework *)

Definition add_listener (f : listener) (o : object) : object :=
  {| o_ctor := o_ctor o; o_fields := o_fields o;
     o_listeners := o_listeners o ++ [f] |}.

Definition write_field (k : string) (v : val) (o : object) : object :=
  {| o_ctor := o_ctor o; o_fields := assign k v (o_fields o);
     o_listeners := o_listeners o |}.

(** Modelled from the spec: [Property.lazyLink], which is missing from the
    sources.  It subscribes a listener that fires on every subsequent
    change, not on the value the property already holds. *)
Definition lazyLink (property : nat) (f : listener) : M unit :=
  modify (with_store (alter (add_listener f) property)).

(** Modelled from the spec: the assignment [target.value = v] on a
    Property, whose class is missing from the sources.  It is a store to
    the value cell that bypasses the change notification. *)
Definition assign_value (target : nat) (v : val) : M unit :=
  modify (with_store (alter (write_field "value" v) target)).

(** The closure of [registerProperty], called with the new value while
    the clock reads [now]. *)
Definition call_listener (now : Z) (f : listener) (value : val) : M unit :=
  match f with
  | RecordChange index =>
      bind (gets store) (fun h =>
      bind (lift (JSON_stringify stack_depth h (replacer h) value)) (fun text =>
      modify (with_log (fun l =>
        {| enabled := enabled l; properties := properties l;
           collections := collections l; propertySets := propertySets l;
           entries := entries l ++ [change_entry now index text];
           collection := collection l |}))))
  end.

Fixpoint notify (now : Z) (fs : list listener) (value : val) : M unit :=
  match fs with
  | [] => ret tt
  | f :: fs' => bind (call_listener now f value) (fun _ => notify now fs' value)
  end.

(** Modelled from the spec: [Property.set], which is missing from the
    sources.  A property is a mutable value cell with change
    notification: the new value is stored, then every listener is called
    with it. *)
Definition Property_set (now : Z) (property : nat) (value : val) : M unit :=
  bind (assign_value property value) (fun _ =>
  bind (gets (fun w => store w !! property)) (fun o =>
  notify now (match o with Some o => o_listeners o | None => [] end) value)).

(** *** [Log.prototype] *)

Definition registerProperty (property : nat) : M unit :=
  bind (gets log) (fun this =>
  if negb (enabled this) then ret tt
  else
    let index := length (properties this) in
    bind (modify (with_log (fun l =>
      {| enabled := enabled l; properties := properties l ++ [property];
         collections := collections l; propertySets := propertySets l;
         entries := entries l; collection := collection l |}))) (fun _ =>
    lazyLink property (RecordChange index))).

(** The second assignment of [clear] stores to [this.collection]. *)
Definition clear : M unit :=
  modify (with_log (fun l =>
    {| enabled := enabled l; properties := [];
       collections := collections l; propertySets := [];
       entries := entries l; collection := Some [] |})).

(** [log.properties[k]] as a value: a handle or [undefined]. *)
Definition property_at (this : Log) (k : val) : val :=
  match array_get (properties this) k with
  | Some l => VRef l
  | None => VUndefined
  end.

(** [log.collections[k].m( ... )] for a method [m] of the collection
    capability: a member access on [undefined] throws. *)
Definition call_collection (k : val) (m : C -> C) : M unit :=
  bind (gets log) (fun this =>
  match array_index k with
  | Some i =>
      match collections this !! i with
      | Some c =>
          modify (with_log (fun l =>
            {| enabled := enabled l; properties := properties l;
               collections := <[i := m c]> (collections l);
               propertySets := propertySets l;
               entries := entries l; collection := collection l |}))
      | None => throw TypeError
      end
  | None => throw TypeError
  end).

Definition console_log (d : diagnostic) : M unit :=
  modify (with_console (fun out => (out ++ [d])%list)).

(** The body of the loop of [stepUntil] for one entry that is due: the
    dispatch on [entry.action]. *)
Definition replay (logIndex : nat) (entry : Entry) : M unit :=
  let cid := e_cid entry in
  if String.eqb (e_action entry) "change" then
    match e_value entry with
    | Some text =>
        bind (gets (fun w => w)) (fun w =>
        match array_get (properties (log w)) cid with
        | Some target =>
            assign_value target
              (JSON_parse text (reviver (store w) (properties (log w))))
        | None => throw TypeError
        end)
    | None =>
        console_log {| d_message := "missing value for index: ";
                       d_logIndex := logIndex; d_entry := entry |}
    end
  else if String.eqb (e_action entry) "trigger" then
    bind (gets log) (fun this =>
    match array_get (properties this) cid with
    | Some target => trigger target (e_event entry)
    | None => throw TypeError
    end)
  else if String.eqb (e_action entry) "add" then
    bind (gets log) (fun this =>
    call_collection (e_collectionCid entry)
      (collection_add (property_at this (e_cid entry))))
  else if String.eqb (e_action entry) "remove" then
    bind (gets log) (fun this =>
    call_collection (e_collectionCid entry)
      (collection_remove (property_at this (e_cid entry))))
  else if String.eqb (e_action entry) "reset" then
    call_collection (e_collectionCid entry) collection_reset
  else if String.eqb (e_action entry) "sort" then
    call_collection (e_collectionCid entry) collection_sort
  else ret tt.

(** The [while] loop of [stepUntil]; [n] bounds the iterations still to
    run, and [length logArray - logIndex] of them always suffice.  The
    cursor [logIndex] is an array index, a natural number; [logArray] is
    the array handed to the call. *)
Fixpoint stepUntil_loop (n : nat) (logArray : list Entry) (playbackTime : Z)
    (logIndex : nat) : M nat :=
  match n with
  | O => ret logIndex
  | S n' =>
      match logArray !! logIndex with
      | None => ret logIndex
      | Some entry =>
          if e_time entry <=? playbackTime then
            bind (replay logIndex entry) (fun _ =>
            stepUntil_loop n' logArray playbackTime (S logIndex))
          else ret logIndex
      end
  end.

Definition stepUntil (logArray : list Entry) (playbackTime : Z)
    (logIndex : nat) : M nat :=
  stepUntil_loop (length logArray - logIndex) logArray playbackTime logIndex.
End Recorder.

Arguments Returns {C A} a w.
Arguments Throws {C A} e w.

(** The round trip of a value through the two hooks, against one registry
    state: [JSON.parse( JSON.stringify( value, replacer ), reviver )].
    Parsing [undefined] is a syntax error. *)
Definition round_trip (depth : nat) (h : heap) (properties : list nat)
    (value : val) : res val :=
  res_bind (JSON_stringify depth h (replacer h) value) (fun text =>
  match text with
  | Some j => Val (JSON_parse j (reviver h properties))
  | None => Exn SyntaxError
  end).

(** ** Descriptions used by the statements *)


(** The length of the run of due entries at the head of [l]. *)
Fixpoint due_run (t : Z) (l : list Entry) : nat :=
  match l with
  | [] => O
  | e :: l' => if e_time e <=? t then S (due_run t l') else O
  end.

(** The fields the serializer enumerates on an object. *)
Definition own_fields (h : heap) (v : val) : list (string * val) :=
  match v with
  | VObj _ fs => fs
  | VRef l => match h !! l with Some o => o_fields o | None => [] end
  | _ => []
  end.

(** Entering an object while writing: a live object that is already being
    written is a cycle. *)
Definition enter (stack : list nat) (v : val) : option (list nat) :=
  match v with
  | VRef l => if existsb (Nat.eqb l) stack then None else Some (l :: stack)
  | _ => Some stack
  end.

(** The three fields [NumberPropertyIO] adds. *)
Definition number_fields : list string := ["valueType"; "units"; "range"].

(** The ids whose lookup in an array the model decides in full: a number,
    a boolean, [null] or [undefined].  Their strings name an element or
    nothing, never a member that arrays inherit. *)
Definition plain_key (k : val) : bool :=
  match k with
  | VUndefined | VNull | VBool _ | VNum _ => true
  | _ => false
  end.


Definition known_action (a : string) : bool :=
  existsb (String.eqb a) ["change"; "trigger"; "add"; "remove"; "reset"; "sort"].

(** A value the serializer writes as itself: [null], a boolean, a finite
    number or a string. *)
Definition plain (v : val) : bool :=
  match v with
  | VNull | VBool _ | VNum (Int _) | VStr _ => true
  | _ => false
  end.

Section Replay.
Context {C : Type} `{Collection C}.
Variable trigger : nat -> val -> M (C := C) unit.

(** Replaying a run of entries that sit at [logIndex], [logIndex + 1],
    ... in the log, in that order; a throw ends the run. *)
Fixpoint replay_from (logIndex : nat) (es : list Entry) : M (C := C) unit :=
  match es with
  | [] => ret tt
  | e :: es' =>
      bind (replay trigger logIndex e) (fun _ => replay_from (S logIndex) es')
  end.
End Replay.

(** ** NumberPropertyIO *)

Module NumberPropertyIO.
Section Adapter.
(** [PropertyIO( NumberIO )], the parent adapter: its two state
    functions are supplied by the property framework.  Objects are
    maps from field names to values. *)
Variable PropertyIOImpl_fromStateObject : gmap string val -> gmap string val.
Variable PropertyIOImpl_toStateObject : gmap string val -> gmap string val.

(** [o.k]: an absent field reads as [undefined]. *)
Definition field (o : gmap string val) (k : string) : val :=
  default VUndefined (o !! k).

Definition fromStateObject (stateObject : gmap string val)
  : gmap string val :=
  let fromParentStateObject := PropertyIOImpl_fromStateObject stateObject in
  let fromParentStateObject :=
    <["valueType" := field stateObject "valueType"]> fromParentStateObject in
  let fromParentStateObject :=
    <["units" := field stateObject "units"]> fromParentStateObject in
  let fromParentStateObject :=
    <["range" := field stateObject "range"]> fromParentStateObject in
  fromParentStateObject.

Definition toStateObject (numberProperty : gmap string val)
  : gmap string val :=
  let parentStateObject := PropertyIOImpl_toStateObject numberProperty in
  let parentStateObject :=
    <["valueType" := field numberProperty "valueType"]> parentStateObject in
  let parentStateObject :=
    <["units" := field numberProperty "units"]> parentStateObject in
  let parentStateObject :=
    <["range" := field numberProperty "range"]> parentStateObject in
  parentStateObject.
End Adapter.

Section SetValue.
(** [PropertyIOImpl.setValue( numberProperty, fromStateObject )] of the
    parent adapter: the fields it leaves on the property. *)
Variable PropertyIOImpl_setValue
  : gmap string val -> gmap string val -> gmap string val.

(** [setValue]: the property after the call. *)
Definition setValue (numberProperty fromStateObject : gmap string val)
  : gmap string val :=
  let numberProperty := PropertyIOImpl_setValue numberProperty fromStateObject in
  let numberProperty :=
    <["units" := field fromStateObject "units"]> numberProperty in
  let numberProperty :=
    <["range" := field fromStateObject "range"]> numberProperty in
  let numberProperty :=
    <["valueType" := field fromStateObject "valueType"]> numberProperty in
  numberProperty.
End SetValue.
End NumberPropertyIO.

(** ** Further descriptions *)

(** The two loops of InternalizeJSONProperty, over any function for the
    elements. *)
Section Internalizer.
Variable intern : string -> json -> val.

Fixpoint internalize_elements (i : nat) (js : list json) : list val :=
  match js with
  | [] => []
  | j :: js' => intern (index_key i) j :: internalize_elements (S i) js'
  end.

Fixpoint internalize_members (ms : list (string * json))
  : list (string * val) :=
  match ms with
  | [] => []
  | (k, j) :: ms' => (k, intern k j) :: internalize_members ms'
  end.
End Internalizer.

(** No own field is named [k]. *)
Definition lacks (k : string) (fs : list (string * val)) : bool :=
  match own_field k fs with
  | None => true
  | Some _ => false
  end.

(** A value that neither hook touches, nested at most [d] deep: a [null],
    a boolean, a finite number, a string, an array of such values, or a
    plain object of such values that has no own field named
    [constructor], no truthy [cid], and whose [jsonClass] is neither
    ['Property'] nor ['Vector2']. *)
Fixpoint inert_within (d : nat) (v : val) : bool :=
  match d with
  | O => false
  | S d' =>
      match v with
      | VNull | VBool _ | VNum (Int _) | VStr _ => true
      | VArr elems => forallb (inert_within d') elems
      | VObj ctor fs =>
          String.eqb ctor "Object"
          && lacks "constructor" fs
          && negb (truthy (assoc "cid" fs))
          && negb (is_string "Property" (assoc "jsonClass" fs))
          && negb (is_string "Vector2" (assoc "jsonClass" fs))
          && forallb (fun kv => inert_within d' (snd kv)) fs
      | _ => false
      end
  end.

(** A number as the serializer writes it: the numbers that are not finite
    are written as [null]. *)
Definition number_text (n : number) : json :=
  match n with
  | Int z => JNum z
  | _ => JNull
  end.

(** How deep a key that denotes an array index nests: a number or a
    string not at all, an array of one element one level more than the
    element. *)
Fixpoint key_depth (k : val) : nat :=
  match k with
  | VArr [x] => S (key_depth x)
  | _ => 1
  end.

(** The typed reference as the serializer writes it. *)
Definition reference_text (cid : Z) : json :=
  JObj [("jsonClass", JStr "Property"); ("cid", JNum cid)].


(** Every recording listener of a live object carries a registry index
    that names this object. *)
Definition listeners_agree {C : Type} (w : world (C := C)) : Prop :=
  forall (l i : nat) (o : object),
    store w !! l = Some o ->
    In (RecordChange i) (o_listeners o) ->
    properties (log w) !! i = Some l.

(** The diagnostics that replaying the run [es], which sits at [logIndex],
    prints: one for each entry without a value. *)
Fixpoint missing_values (logIndex : nat) (es : list Entry) : list diagnostic :=
  match es with
  | [] => []
  | e :: es' =>
      match e_value e with
      | Some _ => missing_values (S logIndex) es'
      | None =>
          {| d_message := "missing value for index: ";
             d_logIndex := logIndex; d_entry := e |}
            :: missing_values (S logIndex) es'
      end
  end.

(** ** A sample session *)

(** A collection that keeps the handles of its members in insertion
    order. *)
Definition same_handle (a b : val) : bool :=
  match a, b with
  | VRef l, VRef l' => Nat.eqb l l'
  | VUndefined, VUndefined => true
  | _, _ => false
  end.

#[export] Instance handle_list : Collection (list val) := {
  collection_add v c := (c ++ [v])%list;
  collection_remove v c := List.filter (fun x => negb (same_handle v x)) c;
  collection_reset _ := [];
  collection_sort c := c
}.

Definition no_trigger : nat -> val -> M (C := list val) unit :=
  fun _ _ => ret tt.

Definition sample_property (cid : list (string * val)) (value : Z) : object :=
  {| o_ctor := "Property";
     o_fields := (cid ++ [("value", VNum (Int value))])%list;
     o_listeners := [] |}.

(** One live property holding 1, and a recorder that records. *)
Definition sample_world : world (C := list val) :=
  {| store := [sample_property [] 1]; log := new_Log true; console := [] |}.

(** Register the property, set it to 2 at time 10 and to 3 at time 20. *)
Definition sample_session : M (C := list val) unit :=
  bind (registerProperty 0%nat) (fun _ =>
  bind (Property_set 4 10 0%nat (VNum (Int 2))) (fun _ =>
  Property_set 4 20 0%nat (VNum (Int 3)))).

(** [[{time:10, type:"property", index:0, action:"change", value:"2"},
      {time:20, type:"property", index:0, action:"change", value:"3"}]] *)
Definition sample_log : list Entry :=
  [change_entry 10 0 (Some (JNum 2)); change_entry 20 0 (Some (JNum 3))].

(** The state the sample session leaves. *)
Definition recorded_world : world (C := list val) :=
  final (sample_session sample_world).

(** The same state with one collection in the registry, holding P. *)
Definition collecting_world : world (C := list val) :=
  with_log (fun l =>
    {| enabled := enabled l; properties := properties l;
       collections := [[VRef 0]]; propertySets := propertySets l;
       entries := entries l; collection := collection l |}) recorded_world.

(** A parent adapter that keeps the [value] field only. *)
Definition value_only (o : gmap string val) : gmap string val :=
  {[ "value" := NumberPropertyIO.field o "value" ]}.

Definition sample_number_property : gmap string val :=
  {[ "value" := VNum (Int 7); "valueType" := VStr "Integer";
     "units" := VStr "meters";
     "range" := VObj "Range" [("min", VNum (Int 0)); ("max", VNum (Int 9))] ]}.

(** A [change] entry as [stepUntil] reads it, with the id under [cid]. *)
Definition change_by_cid (time cid : Z) (text : option json) : Entry :=
  {| e_time := time; e_type := "property"; e_index := VUndefined;
     e_cid := VNum (Int cid); e_action := "change"; e_value := text;
     e_event := VUndefined; e_collectionCid := VUndefined |}.

Definition playable_log : list Entry :=
  [change_by_cid 10 0 (Some (JNum 2)); change_by_cid 20 0 (Some (JNum 3))].

(** A log whose first entry lost its [value]. *)
Definition gappy_log : list Entry :=
  [change_by_cid 5 0 None; change_by_cid 10 0 (Some (JNum 2))].

(** A log whose first entry has an action the replayer does not know. *)
Definition link_entry : Entry :=
  {| e_time := 5; e_type := "property"; e_index := VUndefined;
     e_cid := VNum (Int 0); e_action := "link"; e_value := Some (JNum 7);
     e_event := VUndefined; e_collectionCid := VUndefined |}.

Definition odd_log : list Entry :=
  [link_entry; change_by_cid 10 0 (Some (JNum 2))].

(** A recorder that does not record. *)
Definition silent_world : world (C := list val) :=
  {| store := [sample_property [] 1]; log := new_Log false; console := [] |}.



(** Two live properties that carry their registry index in [cid], both
    registered. *)
Definition indexed_world : world (C := list val) :=
  final
    (bind (registerProperty 0%nat) (fun _ => registerProperty 1%nat)
       {| store := [sample_property [("cid", VNum (Int 0))] 1;
                    sample_property [("cid", VNum (Int 1))] 5];
          log := new_Log true; console := [] |}).

(** A plain nested value. *)
Definition nested_value : val :=
  VObj "Object"
    [("points", VArr [VNum (Int 1); VStr "two"; VBool false]);
     ("label", VNull)].

(** A Vector2 that carries a [cid]. *)
Definition tagged_vector : val :=
  VObj "Vector2"
    [("x", VNum (Int 1)); ("y", VNum (Int 2)); ("cid", VNum (Int 7))].

(** A live object that holds itself. *)
Definition looped : object :=
  {| o_ctor := "Property";
     o_fields := [("value", VNum (Int 1)); ("self", VRef 0)];
     o_listeners := [] |}.

(** A parent [setValue] that copies the [value] field. *)
Definition set_value_only (p s : gmap string val) : gmap string val :=
  <["value" := NumberPropertyIO.field s "value"]> p.



(** Two live properties without a [cid], both registered. *)
Definition two_registered : world (C := list val) :=
  final
    (bind (registerProperty 0%nat) (fun _ => registerProperty 1%nat)
       {| store := [sample_property [] 1; sample_property [] 5];
          log := new_Log true; console := [] |}).

(** Two registered live properties of which the first carries the id of
    the second. *)
Definition crossed_world : world (C := list val) :=
  final
    (bind (registerProperty 0%nat) (fun _ => registerProperty 1%nat)
       {| store := [sample_property [("cid", VNum (Int 1))] 1;
                    sample_property [("cid", VNum (Int 1))] 5];
          log := new_Log true; console := [] |}).

(** A Vector2 whose [cid] is 0, and a plain object whose [cid] is 0 and
    whose own [constructor] field is [null]. *)
Definition zero_vector : val :=
  VObj "Vector2"
    [("x", VNum (Int 1)); ("y", VNum (Int 2)); ("cid", VNum (Int 0))].

Definition null_constructor : val :=
  VObj "Object" [("cid", VNum (Int 0)); ("constructor", VNull)].

(** ** The loop of [stepUntil] *)

Section ReplayFacts.
Context {C : Type} `{Collection C}.
Variable trigger : nat -> val -> M (C := C) unit.

(** The iteration bound of [stepUntil] is never reached early. *)
Lemma stepUntil_loop_enough (logArray : list Entry) (t : Z) :
  forall (n m i : nat) (w : world),
    (length logArray - i <= n)%nat -> (length logArray - i <= m)%nat ->
    stepUntil_loop trigger n logArray t i w
    = stepUntil_loop trigger m logArray t i w.
Proof.
  induction n as [|n IH]; intros m i w Hn Hm.
  - assert (Hnone : logArray !! i = None) by (apply lookup_ge_None; lia).
    destruct m; cbn [stepUntil_loop]; [reflexivity|]. now rewrite Hnone.
  - cbn [stepUntil_loop]. destruct (logArray !! i) as [e|] eqn:He.
    + apply lookup_lt_Some in He as Hlt.
      destruct m as [|m]; [lia|]. cbn [stepUntil_loop]. rewrite He.
      destruct (e_time e <=? t); [|reflexivity].
      unfold bind. destruct (replay trigger i e w); [|reflexivity].
      apply IH; lia.
    + destruct m; cbn [stepUntil_loop]; [reflexivity|]. now rewrite He.
Qed.

(** One turn of the loop. *)
Lemma stepUntil_unfold (logArray : list Entry) (t : Z) (i : nat) (w : world) :
  stepUntil trigger logArray t i w
  = match logArray !! i with
    | None => Returns i w
    | Some e =>
        if e_time e <=? t then
          bind (replay trigger i e)
               (fun _ => stepUntil trigger logArray t (S i)) w
        else Returns i w
    end.
Proof.
  unfold stepUntil. destruct (logArray !! i) as [e|] eqn:He.
  - apply lookup_lt_Some in He as Hlt.
    replace (length logArray - i)%nat with (S (length logArray - S i)) by lia.
    cbn [stepUntil_loop]. rewrite He.
    destruct (e_time e <=? t); reflexivity.
  - apply lookup_ge_None in He.
    replace (length logArray - i)%nat with O by lia. reflexivity.
Qed.




Lemma due_run_stop (logArray : list Entry) (t : Z) (i : nat) (e : Entry) :
  logArray !! (i + due_run t (drop i logArray))%nat = Some e -> t < e_time e.
Proof.
  rewrite <- lookup_drop. generalize (drop i logArray) as l.
  induction l as [|x l IH]; simpl; [discriminate|].
  destruct (e_time x <=? t) eqn:Hle; simpl; [exact IH|].
  intros [= <-]. now apply Z.leb_gt.
Qed.

(** Whatever the order of the log, a call replays the run of due entries
    at the cursor and returns the position after the run. *)
Lemma stepUntil_run (logArray : list Entry) (t : Z) :
  forall (n i : nat) (w : world),
    (length logArray - i <= n)%nat ->
    stepUntil trigger logArray t i w
    = bind (replay_from trigger i
              (take (due_run t (drop i logArray)) (drop i logArray)))
           (fun _ => ret (i + due_run t (drop i logArray))%nat) w.
Proof.
  induction n as [|n IH]; intros i w Hn; rewrite stepUntil_unfold.
  - rewrite lookup_ge_None_2, drop_ge by lia. simpl.
    unfold bind, ret. simpl. f_equal. lia.
  - destruct (logArray !! i) as [e|] eqn:He.
    + rewrite (drop_S _ _ _ He). simpl.
      destruct (e_time e <=? t) eqn:Hle; simpl.
      * unfold bind. destruct (replay trigger i e w); [|reflexivity].
        rewrite IH by lia. unfold bind, ret.
        destruct (replay_from _ _ _ _); [|reflexivity].
        f_equal. lia.
      * unfold bind, ret. simpl. f_equal. lia.
    + apply lookup_ge_None in He. rewrite drop_ge by lia. simpl.
      unfold bind, ret. simpl. f_equal. lia.
Qed.

(** A call whose cursor is at the end of the log, or at an entry that is
    not due, replays nothing. *)
Lemma stepUntil_at_rest (logArray : list Entry) (t : Z) (k : nat) (w : world) :
  (forall e, logArray !! k = Some e -> t < e_time e) ->
  stepUntil trigger logArray t k w = Returns k w.
Proof.
  intros Hstop. rewrite stepUntil_unfold.
  destruct (logArray !! k) as [e|]; [|reflexivity].
  specialize (Hstop e eq_refl).
  replace (e_time e <=? t) with false by (symmetry; apply Z.leb_gt; lia).
  reflexivity.
Qed.


(** C5. A call of [stepUntil] that returns, returns a cursor that is at
    least the cursor it was given, and a second call with the same target
    time at the returned cursor returns that cursor again and leaves the
    state as it is: it replays no entry.  The first call returns
    whenever the replay of the entries of its run does. *)
Theorem C5_stepUntil_monotone_idempotent
    (logArray : list Entry) (playbackTime : Z) (logIndex : nat) (w : world) :
  (forall k w',
      stepUntil trigger logArray playbackTime logIndex w = Returns k w' ->
      (logIndex <= k)%nat
      /\ stepUntil trigger logArray playbackTime k w' = Returns k w')
  /\ bind (stepUntil trigger logArray playbackTime logIndex)
          (fun k => stepUntil trigger logArray playbackTime k) w
     = stepUntil trigger logArray playbackTime logIndex w
  /\ exists k,
       (logIndex <= k)%nat
       /\ stepUntil trigger logArray playbackTime logIndex w
          = bind (replay_from trigger logIndex
                    (take (k - logIndex) (drop logIndex logArray)))
                 (fun _ => ret k) w.
Proof.
  pose proof (stepUntil_run logArray playbackTime
                (length logArray - logIndex) logIndex w (le_n _)) as Hrun.
  pose proof (due_run_stop logArray playbackTime logIndex) as Hstop.
  set (r := due_run playbackTime (drop logIndex logArray)) in *.
  assert (Hfst : forall k w',
             stepUntil trigger logArray playbackTime logIndex w = Returns k w' ->
             (logIndex <= k)%nat
             /\ stepUntil trigger logArray playbackTime k w' = Returns k w').
  { intros k w' Hret. rewrite Hrun in Hret. unfold bind, ret in Hret.
    destruct (replay_from _ _ _ _); [|discriminate].
    injection Hret as <- <-. split; [lia|].
    now apply stepUntil_at_rest. }
  split; [exact Hfst|split].
  - unfold bind.
    destruct (stepUntil trigger logArray playbackTime logIndex w)
      as [k w'|] eqn:Hret; [|reflexivity].
    now apply Hfst.
  - exists (logIndex + r)%nat. split; [lia|].
    rewrite Hrun. now replace (logIndex + r - logIndex)%nat with r by lia.
Qed.
(** The replay of a [change] entry leaves the recorder as it is. *)
Lemma replay_change_keeps_log (i : nat) (e : Entry) (w : world) :
  e_action e = "change" -> log (final (replay trigger i e w)) = log w.
Proof.
  intros Ha. unfold replay. rewrite Ha. simpl.
  destruct (e_value e) as [text|]; [|reflexivity].
  unfold bind, gets. simpl.
  destruct (array_get (properties (log w)) (e_cid e)); reflexivity.
Qed.

Lemma stepUntil_changes_keep_log (logArray : list Entry) (t : Z) :
  Forall (fun e => e_action e = "change") logArray ->
  forall (n i : nat) (w : world),
    (length logArray - i <= n)%nat ->
    log (final (stepUntil trigger logArray t i w)) = log w.
Proof.
  intros Hall. induction n as [|n IH]; intros i w Hn; rewrite stepUntil_unfold.
  - now rewrite lookup_ge_None_2 by lia.
  - destruct (logArray !! i) as [e|] eqn:He; [|reflexivity].
    destruct (e_time e <=? t); [|reflexivity].
    assert (Ha : e_action e = "change").
    { rewrite Forall_forall in Hall. apply Hall.
      eapply list_elem_of_lookup_2, He. }
    pose proof (replay_change_keeps_log i e w Ha) as Hk.
    unfold bind. destruct (replay trigger i e w) as [u w'|err w']; simpl in Hk.
    + rewrite IH by lia. exact Hk.
    + exact Hk.
Qed.

(** C4. Replaying a log of [change] entries does not record: whatever the
    state of the recorder (recording enabled or not, properties
    registered and listened to or not), [stepUntil] leaves the entry log
    of the recorder as it was, whether the call returns or throws. *)
Theorem C4_replay_does_not_record
    (logArray : list Entry) (playbackTime : Z) (logIndex : nat) (w : world) :
  Forall (fun e => e_action e = "change") logArray ->
  entries (log (final (stepUntil trigger logArray playbackTime logIndex w)))
  = entries (log w).
Proof.
  intros Hall.
  now rewrite (stepUntil_changes_keep_log logArray playbackTime Hall
                 (length logArray - logIndex)).
Qed.


(** C8. A due entry whose action is none of [change], [trigger], [add],
    [remove], [reset] and [sort] is ignored: its replay returns and
    leaves the whole state as it is, and [stepUntil] goes on from the
    next position in that state.  The call replays the run of due entries
    behind the ignored one and returns the position after that run, so a
    cursor it returns lies past the ignored entry; when the next entry is
    not due, or there is none, it returns the next position and the state
    as it was. *)
Theorem C8_unknown_action_is_ignored
    (logArray : list Entry) (playbackTime : Z) (logIndex : nat)
    (entry : Entry) (w : world) :
  logArray !! logIndex = Some entry ->
  known_action (e_action entry) = false ->
  e_time entry <= playbackTime ->
  replay trigger logIndex entry w = Returns tt w
  /\ stepUntil trigger logArray playbackTime logIndex w
     = stepUntil trigger logArray playbackTime (S logIndex) w
  /\ stepUntil trigger logArray playbackTime logIndex w
     = bind (replay_from trigger (S logIndex)
               (take (due_run playbackTime (drop (S logIndex) logArray))
                     (drop (S logIndex) logArray)))
            (fun _ =>
               ret (S logIndex
                    + due_run playbackTime (drop (S logIndex) logArray))%nat)
            w
  /\ (forall k w',
         stepUntil trigger logArray playbackTime logIndex w = Returns k w' ->
         (logIndex < k)%nat)
  /\ ((forall next,
          logArray !! S logIndex = Some next -> playbackTime < e_time next) ->
      stepUntil trigger logArray playbackTime logIndex w
      = Returns (S logIndex) w).
Proof.
  intros He Ha Ht.
  assert (Hr : replay trigger logIndex entry w = Returns tt w).
  { unfold known_action in Ha. simpl in Ha.
    repeat (apply orb_false_elim in Ha as [? Ha]).
    unfold replay.
    repeat match goal with
           | Hx : String.eqb _ _ = false |- _ => rewrite Hx; clear Hx
           end.
    reflexivity. }
  assert (Hstep : stepUntil trigger logArray playbackTime logIndex w
                  = stepUntil trigger logArray playbackTime (S logIndex) w).
  { rewrite stepUntil_unfold, He.
    replace (e_time entry <=? playbackTime) with true
      by (symmetry; now apply Z.leb_le).
    unfold bind. now rewrite Hr. }
  pose proof (stepUntil_run logArray playbackTime
                (length logArray - S logIndex) (S logIndex) w (le_n _))
    as Hrun.
  split; [exact Hr|]. split; [exact Hstep|].
  split; [now rewrite Hstep|]. split.
  - intros k w' Hret. rewrite Hstep, Hrun in Hret. unfold bind, ret in Hret.
    destruct (replay_from _ _ _ _); [|discriminate].
    injection Hret as <- _. lia.
  - intros Hlate. rewrite Hstep. now apply stepUntil_at_rest.
Qed.
End ReplayFacts.

(** ** The sample session *)

Example sample_session_records :
  sample_session sample_world = Returns tt recorded_world
  /\ entries (log recorded_world) = sample_log
  /\ properties (log recorded_world) = [0%nat]
  /\ get_field (store recorded_world) (VRef 0) "value" = VNum (Int 3).
Proof. repeat split. Qed.

Example playable_log_replays :
  exists w1 w2,
    stepUntil no_trigger playable_log 15 0 recorded_world = Returns 1%nat w1
    /\ get_field (store w1) (VRef 0) "value" = VNum (Int 2)
    /\ stepUntil no_trigger playable_log 20 1 w1 = Returns 2%nat w2
    /\ get_field (store w2) (VRef 0) "value" = VNum (Int 3)
    /\ log w2 = log recorded_world.
Proof. do 2 eexists. repeat split. Qed.

(** Had the replay gone through the notifying setter, it would have
    recorded. *)
Example notifying_setter_records :
  entries (log (final (Property_set 4 30 0%nat (VNum (Int 2)) recorded_world)))
  = (sample_log ++ [change_entry 30 0 (Some (JNum 2))])%list.
Proof. reflexivity. Qed.

(** ** The statements at the sample session *)


Lemma C4_witness :
  Forall (fun e => e_action e = "change") playable_log
  /\ entries (log (final (stepUntil no_trigger playable_log 20 0 recorded_world)))
     = entries (log recorded_world).
Proof.
  assert (Hall : Forall (fun e => e_action e = "change") playable_log)
    by (repeat constructor).
  split; [exact Hall|].
  exact (C4_replay_does_not_record no_trigger playable_log 20 0
           recorded_world Hall).
Defined.

Lemma C5_witness :
  stepUntil no_trigger playable_log 15 0 recorded_world
  = Returns 1%nat (final (stepUntil no_trigger playable_log 15 0 recorded_world))
  /\ (0 <= 1)%nat
  /\ stepUntil no_trigger playable_log 15 1
       (final (stepUntil no_trigger playable_log 15 0 recorded_world))
     = Returns 1%nat
         (final (stepUntil no_trigger playable_log 15 0 recorded_world)).
Proof.
  assert (Hret : stepUntil no_trigger playable_log 15 0 recorded_world
                 = Returns 1%nat
                     (final (stepUntil no_trigger playable_log 15 0
                               recorded_world))) by reflexivity.
  split; [exact Hret|].
  exact (proj1 (C5_stepUntil_monotone_idempotent no_trigger playable_log 15 0
                  recorded_world) _ _ Hret).
Defined.


Lemma C8_witness :
  odd_log !! 0%nat = Some link_entry
  /\ known_action (e_action link_entry) = false
  /\ e_time link_entry <= 15
  /\ replay no_trigger 0 link_entry recorded_world = Returns tt recorded_world
  /\ exists w',
       stepUntil no_trigger odd_log 15 0 recorded_world = Returns 2%nat w'
       /\ get_field (store w') (VRef 0) "value" = VNum (Int 2)
       /\ log w' = log recorded_world
       /\ console w' = console recorded_world.
Proof.
  assert (Ht : e_time link_entry <= 15) by (simpl; lia).
  destruct (C8_unknown_action_is_ignored no_trigger odd_log 15 0 link_entry
              recorded_world eq_refl eq_refl Ht) as (Hr & _ & Hrun & _).
  split; [reflexivity|]. split; [reflexivity|]. split; [exact Ht|].
  split; [exact Hr|].
  eexists. split; [rewrite Hrun; reflexivity|]. repeat split.
Defined.

(** C1. The recording half of the scenario holds: registering P at id 0
    with value 1 and setting it to 2 at time 10 and to 3 at time 20 yields
    the two entries of the claim.  The replay half does not: the entries
    carry the id under [index], [stepUntil] reads [cid], so in every state
    each of the two calls throws on its first entry and changes nothing. *)
Theorem C1_recorded_log_replay_throws :
  (sample_session sample_world = Returns tt recorded_world
   /\ entries (log recorded_world) = sample_log)
  /\ forall (C : Type) (H : Collection C)
       (trigger : nat -> val -> M (C := C) unit) (w : world (C := C)),
       stepUntil trigger sample_log 15 0 w = Throws TypeError w
       /\ stepUntil trigger sample_log 20 1 w = Throws TypeError w.
Proof.
  split; [split; reflexivity|].
  intros C H trigger w. split; reflexivity.
Qed.

(** C2, as the code has it.  [clear] empties [properties] and
    [propertySets] and leaves the entry log as it was. *)
Theorem C2_clear_resets_properties_and_propertySets
    (C : Type) (w : world (C := C)) :
  exists w',
    clear w = Returns tt w'
    /\ properties (log w') = []
    /\ propertySets (log w') = []
    /\ entries (log w') = entries (log w)
    /\ store w' = store w.
Proof. eexists. repeat split. Qed.

(** C2 as stated fails after the sample session with one collection in the
    registry: [clear] leaves both entries in the log, and the collection
    in [collections], the empty array going to a new field [collection]. *)
Lemma C2_counterexample :
  exists w',
    clear collecting_world = Returns tt w'
    /\ entries (log w') = sample_log
    /\ entries (log w') <> []
    /\ collections (log w') = [[VRef 0]]
    /\ collections (log w') <> []
    /\ collection (log w') = Some [].
Proof. eexists. repeat split; discriminate. Qed.

(** ** The JSON hooks *)

(** The call-stack budget is only a budget: a result obtained within a
    budget is the result within every larger one. *)
Lemma serialize_elements_mono (ser1 ser2 : string -> val -> res (option json)) :
  (forall k v r, ser1 k v = Val r -> ser2 k v = Val r) ->
  forall (elems : list val) (i : nat) (r : list json),
    serialize_elements ser1 i elems = Val r ->
    serialize_elements ser2 i elems = Val r.
Proof.
  intros Hser. induction elems as [|v elems IH]; intros i r; simpl; [auto|].
  destruct (ser1 (index_key i) v) as [j|] eqn:Hj; simpl; [|discriminate].
  rewrite (Hser _ _ _ Hj). simpl.
  destruct (serialize_elements ser1 (S i) elems) as [js|] eqn:Hjs; simpl;
    [|discriminate].
  now rewrite (IH _ _ Hjs).
Qed.

Lemma serialize_members_mono (ser1 ser2 : string -> val -> res (option json)) :
  (forall k v r, ser1 k v = Val r -> ser2 k v = Val r) ->
  forall (fs : list (string * val)) (r : list (string * json)),
    serialize_members ser1 fs = Val r ->
    serialize_members ser2 fs = Val r.
Proof.
  intros Hser. induction fs as [|[k v] fs IH]; intros r; simpl; [auto|].
  destruct (ser1 k v) as [j|] eqn:Hj; simpl; [|discriminate].
  rewrite (Hser _ _ _ Hj). simpl.
  destruct (serialize_members ser1 fs) as [ms|]; simpl; [|discriminate].
  now rewrite (IH _ eq_refl).
Qed.

Lemma SerializeJSONProperty_mono (h : heap) (rp : string -> val -> res val) :
  forall (d d' : nat) (stack : list nat) (key : string) (v : val)
         (r : option json),
    (d <= d')%nat ->
    SerializeJSONProperty d h rp stack key v = Val r ->
    SerializeJSONProperty d' h rp stack key v = Val r.
Proof.
  induction d as [|d IH]; intros d' stack key v r Hle; [discriminate|].
  destruct d' as [|d']; [lia|]. cbn [SerializeJSONProperty].
  destruct (rp key v) as [[| |b|[z| | |]|s|elems|c fs|l]|]; simpl;
    try (intros; assumption).
  - destruct (serialize_elements _ _ elems) as [js|] eqn:Hjs; simpl;
      [|discriminate].
    intros <-.
    rewrite (serialize_elements_mono _ (SerializeJSONProperty d' h rp stack)
               (fun k x y => IH d' stack k x y ltac:(lia)) _ _ _ Hjs).
    reflexivity.
  - destruct (serialize_members _ fs) as [ms|] eqn:Hms; simpl; [|discriminate].
    intros <-.
    rewrite (serialize_members_mono _ (SerializeJSONProperty d' h rp stack)
               (fun k x y => IH d' stack k x y ltac:(lia)) _ _ Hms).
    reflexivity.
  - destruct (existsb (Nat.eqb l) stack); [discriminate|].
    destruct (serialize_members _ _) as [ms|] eqn:Hms; simpl; [|discriminate].
    intros <-.
    rewrite (serialize_members_mono _
               (SerializeJSONProperty d' h rp (l :: stack))
               (fun k x y => IH d' (l :: stack) k x y ltac:(lia)) _ _ Hms).
    reflexivity.
Qed.

(** One call of the serializer. *)
Lemma SerializeJSONProperty_step (d : nat) (h : heap)
    (rp : string -> val -> res val) (stack : list nat) (key : string)
    (v : val) :
  SerializeJSONProperty (S d) h rp stack key v
  = res_bind (rp key v) (fun value =>
    match value with
    | VUndefined => Val None
    | VNull => Val (Some JNull)
    | VBool b => Val (Some (JBool b))
    | VNum (Int z) => Val (Some (JNum z))
    | VNum _ => Val (Some JNull)
    | VStr s => Val (Some (JStr s))
    | VArr elems =>
        res_bind
          (serialize_elements (SerializeJSONProperty d h rp stack) 0 elems)
          (fun js => Val (Some (JArr js)))
    | VObj _ fs =>
        res_bind
          (serialize_members (SerializeJSONProperty d h rp stack) fs)
          (fun ms => Val (Some (JObj ms)))
    | VRef l =>
        if existsb (Nat.eqb l) stack then Exn TypeError
        else
          res_bind
            (serialize_members (SerializeJSONProperty d h rp (l :: stack))
               (match h !! l with Some o => o_fields o | None => [] end))
            (fun ms => Val (Some (JObj ms)))
    end).
Proof. reflexivity. Qed.

(** A value without a truthy [cid] that the Vector2 test turns down
    passes the replacer. *)
Lemma replacer_passes (h : heap) (key : string) (v : val) :
  truthy (get_field h v "cid") = false ->
  constructor_named h "Vector2" v = Val false ->
  replacer h key v = Val v.
Proof.
  intros Hcid Hctor. unfold replacer. rewrite Hcid, Hctor, andb_false_r.
  simpl. now destruct (truthy v).
Qed.

Lemma Internalize_array (rv : string -> val -> val) (name : string)
    (elems : list json) :
  InternalizeJSONProperty rv name (JArr elems)
  = rv name (VArr (internalize_elements (InternalizeJSONProperty rv) 0 elems)).
Proof. reflexivity. Qed.

Lemma Internalize_object (rv : string -> val -> val) (name : string)
    (members : list (string * json)) :
  InternalizeJSONProperty rv name (JObj members)
  = rv name
      (VObj "Object"
         (List.filter is_defined
            (internalize_members (InternalizeJSONProperty rv) members))).
Proof. reflexivity. Qed.

(** A value without a [jsonClass] passes the reviver. *)
Lemma reviver_passes (h : heap) (properties : list nat) (key : string) (v : val) :
  truthy (get_field h v "jsonClass") = false ->
  reviver h properties key v = v.
Proof.
  intros Hclass. unfold reviver. rewrite Hclass.
  now rewrite !andb_false_r.
Qed.

(** C10, as the code has it.  An object whose [cid] field is 0 is not
    taken for a property: the replacer goes on to its Vector2 test, and
    yields the typed reference with cid 0 only if the object already is
    that very literal.  When the test says Vector2 the object is written
    as [{x, y, jsonClass: 'Vector2'}]; when the test throws, because
    the object has an own [constructor] field that is [null] or
    [undefined], so does the serializer; otherwise the replacer returns
    the object itself and the serializer writes it member by member from
    its own fields. *)
Theorem C10_cid_zero_is_not_a_reference
    (h : heap) (key : string) (v : val) :
  get_field h v "cid" = VNum (Int 0) ->
  (replacer h key v = Val (property_reference (VNum (Int 0))) ->
   v = property_reference (VNum (Int 0)))
  /\ match constructor_named h "Vector2" v with
     | Val true =>
         replacer h key v
         = Val (VObj "Object" [("x", get_field h v "x");
                               ("y", get_field h v "y");
                               ("jsonClass", VStr "Vector2")])
     | Val false =>
         replacer h key v = Val v
         /\ forall (depth : nat) (stack : list nat),
              SerializeJSONProperty (S depth) h (replacer h) stack key v
              = match enter stack v with
                | None => Exn TypeError
                | Some stack' =>
                    res_bind
                      (serialize_members
                         (SerializeJSONProperty depth h (replacer h) stack')
                         (own_fields h v))
                      (fun ms => Val (Some (JObj ms)))
                end
     | Exn e =>
         replacer h key v = Exn e
         /\ forall (depth : nat) (stack : list nat),
              SerializeJSONProperty (S depth) h (replacer h) stack key v
              = Exn e
     end.
Proof.
  intros Hcid.
  assert (Hobj : truthy v = true)
    by (destruct v as [| |?|[?| | |]|?|?|? ?|?]; try discriminate; reflexivity).
  assert (Hr : replacer h key v
               = res_bind (constructor_named h "Vector2" v) (fun vector =>
                 if vector then
                   Val (VObj "Object"
                          [("x", get_field h v "x"); ("y", get_field h v "y");
                           ("jsonClass", VStr "Vector2")])
                 else Val v)).
  { unfold replacer. rewrite Hcid, Hobj. reflexivity. }
  split.
  - rewrite Hr. destruct (constructor_named h "Vector2" v) as [[|]|]; simpl;
      [discriminate|now intros [= ->]|discriminate].
  - destruct (constructor_named h "Vector2" v) as [[|]|e] eqn:Hctor;
      simpl in Hr.
    + exact Hr.
    + split; [exact Hr|]. intros depth stack. cbn [SerializeJSONProperty].
      rewrite Hr. simpl.
      destruct v as [| |?|[?| | |]|?|?|? ?|l]; try discriminate; simpl.
      * reflexivity.
      * destruct (existsb (Nat.eqb l) stack); reflexivity.
    + split; [exact Hr|]. intros depth stack. cbn [SerializeJSONProperty].
      now rewrite Hr.
Qed.

Lemma C10_witness :
  get_field (store indexed_world) (VRef 0) "cid" = VNum (Int 0)
  /\ replacer (store indexed_world) "" (VRef 0) = Val (VRef 0)
  /\ JSON_stringify 2 (store indexed_world) (replacer (store indexed_world))
       (VRef 0)
     = Val (Some (JObj [("cid", JNum 0); ("value", JNum 1)])).
Proof.
  destruct (C10_cid_zero_is_not_a_reference (store indexed_world) ""
              (VRef 0) eq_refl) as (_ & Hr & Hs).
  split; [reflexivity|]. split.
  - exact Hr.
  - unfold JSON_stringify. rewrite (Hs 1%nat []). reflexivity.
Defined.

(** C10 as stated fails for a Vector2 whose [cid] is 0, which is written
    as [{x, y, jsonClass}] and loses its [cid], where an ordinary object
    with the same fields is written with all three; and for an object
    whose [cid] is 0 and whose own [constructor] field is [null], which
    is not written at all. *)
Lemma C10_counterexample :
  (get_field [] zero_vector "cid" = VNum (Int 0)
   /\ JSON_stringify 2 [] (replacer []) zero_vector
      = Val (Some (JObj [("x", JNum 1); ("y", JNum 2);
                         ("jsonClass", JStr "Vector2")]))
   /\ JSON_stringify 2 [] (replacer [])
        (VObj "Object" [("x", VNum (Int 1)); ("y", VNum (Int 2));
                        ("cid", VNum (Int 0))])
      = Val (Some (JObj [("x", JNum 1); ("y", JNum 2); ("cid", JNum 0)])))
  /\ (get_field [] null_constructor "cid" = VNum (Int 0)
      /\ JSON_stringify 2 [] (replacer []) null_constructor = Exn TypeError).
Proof. repeat split. Qed.

(** ** NumberPropertyIO *)

(** C9. Whatever the parent adapter does, [toStateObject] returns the
    parent's state object with the three fields [valueType], [units] and
    [range] set from the property and every other field as the parent left
    it; [fromStateObject] does the same from the state object; and the
    three fields of a property survive [toStateObject] followed by
    [fromStateObject]. *)
Theorem C9_NumberPropertyIO_copies_three_fields
    (parent_from parent_to : gmap string val -> gmap string val)
    (p s : gmap string val) (k : string) :
  (k ∈ number_fields ->
     NumberPropertyIO.toStateObject parent_to p !! k
     = Some (NumberPropertyIO.field p k)
     /\ NumberPropertyIO.fromStateObject parent_from s !! k
        = Some (NumberPropertyIO.field s k)
     /\ NumberPropertyIO.field
          (NumberPropertyIO.fromStateObject parent_from
             (NumberPropertyIO.toStateObject parent_to p)) k
        = NumberPropertyIO.field p k)
  /\ (k ∉ number_fields ->
       NumberPropertyIO.toStateObject parent_to p !! k = parent_to p !! k
       /\ NumberPropertyIO.fromStateObject parent_from s !! k
          = parent_from s !! k).
Proof.
  unfold NumberPropertyIO.toStateObject, NumberPropertyIO.fromStateObject,
    NumberPropertyIO.field, number_fields.
  split; intros Hk.
  - repeat (apply elem_of_cons in Hk as [->|Hk]); [| | |by inversion Hk];
      repeat split; simplify_map_eq; reflexivity.
  - assert (k <> "valueType" /\ k <> "units" /\ k <> "range") as (H1 & H2 & H3).
    { repeat split; intros ->; apply Hk; set_solver. }
    repeat split; now rewrite !lookup_insert_ne by congruence.
Qed.

Lemma C9_witness :
  "units" ∈ number_fields
  /\ NumberPropertyIO.toStateObject value_only sample_number_property !! "units"
     = Some (VStr "meters")
  /\ NumberPropertyIO.field
       (NumberPropertyIO.fromStateObject value_only
          (NumberPropertyIO.toStateObject value_only sample_number_property))
       "units"
     = VStr "meters".
Proof.
  assert (Hk : "units" ∈ number_fields) by (unfold number_fields; set_solver).
  destruct (proj1 (C9_NumberPropertyIO_copies_three_fields value_only value_only
                     sample_number_property sample_number_property "units") Hk)
    as (Hto & _ & Hround).
  split; [exact Hk|]. split.
  - exact Hto.
  - exact Hround.
Defined.

(** ** Further properties of the recorder *)

(** X1. With recording disabled, [registerProperty] does nothing: the
    registry, the property and the entry log stay as they are. *)
Theorem X1_registerProperty_disabled
    (C : Type) (property : nat) (w : world (C := C)) :
  enabled (log w) = false -> registerProperty property w = Returns tt w.
Proof.
  intros Hoff. unfold registerProperty, bind, gets. now rewrite Hoff.
Qed.

Lemma X1_witness :
  enabled (log silent_world) = false
  /\ registerProperty 0%nat silent_world = Returns tt silent_world.
Proof.
  split; [reflexivity|].
  exact (X1_registerProperty_disabled (list val) 0%nat silent_world eq_refl).
Defined.

(** X2. The lookups of the replayer are not guarded.  For an id that is
    a number, a boolean, [null] or [undefined] (a field that is absent)
    and does not index the registry: the replay of a [change] entry with
    a value, or of a [trigger] entry, whose [cid] is such an id, throws
    and leaves the state as it is; so does the replay of an [add],
    [remove], [reset] or [sort] entry whose [collectionCid] is such an
    id. *)
Theorem X2_unknown_id_throws
    (C : Type) (H : Collection C) (trigger : nat -> val -> M (C := C) unit)
    (logIndex : nat) (entry : Entry) (w : world (C := C)) :
  (plain_key (e_cid entry) = true
   /\ array_get (properties (log w)) (e_cid entry) = None
   /\ ((e_action entry = "change" /\ e_value entry <> None)
       \/ e_action entry = "trigger"))
  \/ (plain_key (e_collectionCid entry) = true
      /\ array_get (collections (log w)) (e_collectionCid entry) = None
      /\ In (e_action entry) ["add"; "remove"; "reset"; "sort"]) ->
  replay trigger logIndex entry w = Throws TypeError w.
Proof.
  assert (Hcall : forall m,
             array_get (collections (log w)) (e_collectionCid entry) = None ->
             call_collection (e_collectionCid entry) m w = Throws TypeError w).
  { intros m Hnone. unfold call_collection, bind, gets, array_get in *.
    destruct (array_index (e_collectionCid entry)); [|reflexivity].
    now rewrite Hnone. }
  unfold replay.
  intros [(_ & Hnone & [[-> Hv]| ->])|(_ & Hnone & Hin)]; simpl.
  - destruct (e_value entry); [|congruence].
    unfold bind, gets. now rewrite Hnone.
  - unfold bind, gets. now rewrite Hnone.
  - simpl in Hin.
    destruct Hin as [<-|[<-|[<-|[<-|[]]]]]; simpl; unfold bind, gets;
      now apply Hcall.
Qed.

Lemma X2_witness :
  (plain_key (e_cid (change_by_cid 10 5 (Some (JNum 2)))) = true
   /\ array_get (properties (log recorded_world))
        (e_cid (change_by_cid 10 5 (Some (JNum 2)))) = None
   /\ ((e_action (change_by_cid 10 5 (Some (JNum 2))) = "change"
        /\ e_value (change_by_cid 10 5 (Some (JNum 2))) <> None)
       \/ e_action (change_by_cid 10 5 (Some (JNum 2))) = "trigger"))
  /\ replay no_trigger 0 (change_by_cid 10 5 (Some (JNum 2))) recorded_world
     = Throws TypeError recorded_world.
Proof.
  assert (Hin : plain_key (e_cid (change_by_cid 10 5 (Some (JNum 2)))) = true
                /\ array_get (properties (log recorded_world))
                     (e_cid (change_by_cid 10 5 (Some (JNum 2)))) = None
                /\ ((e_action (change_by_cid 10 5 (Some (JNum 2))) = "change"
                     /\ e_value (change_by_cid 10 5 (Some (JNum 2))) <> None)
                    \/ e_action (change_by_cid 10 5 (Some (JNum 2)))
                       = "trigger")).
  { split; [reflexivity|]. split; [reflexivity|].
    left. split; [reflexivity|discriminate]. }
  split; [exact Hin|].
  exact (X2_unknown_id_throws (list val) handle_list no_trigger 0
           (change_by_cid 10 5 (Some (JNum 2))) recorded_world
           (or_introl Hin)).
Defined.



(** X4. A value whose constructor is named Vector2, that is not taken
    for a property and has finite coordinates, is written as
    [{x, y, jsonClass: 'Vector2'}] and comes back from the round trip as
    the plain object [{x, y}]. *)
Theorem X4_vector2_round_trip
    (depth : nat) (h : heap) (properties : list nat) (v : val) (x y : Z) :
  constructor_named h "Vector2" v = Val true ->
  truthy (get_field h v "cid") = false ->
  get_field h v "x" = VNum (Int x) ->
  get_field h v "y" = VNum (Int y) ->
  JSON_stringify (S (S depth)) h (replacer h) v
  = Val (Some (JObj [("x", JNum x); ("y", JNum y);
                     ("jsonClass", JStr "Vector2")]))
  /\ round_trip (S (S depth)) h properties v
     = Val (VObj "Object" [("x", VNum (Int x)); ("y", VNum (Int y))]).
Proof.
  intros Hctor Hcid Hx Hy.
  assert (Hv : truthy v = true)
    by (destruct v as [| |?|[?| | |]|?|?|? ?|?]; try discriminate; reflexivity).
  assert (Hs : JSON_stringify (S (S depth)) h (replacer h) v
               = Val (Some (JObj [("x", JNum x); ("y", JNum y);
                                  ("jsonClass", JStr "Vector2")]))).
  { unfold JSON_stringify. cbn [SerializeJSONProperty].
    unfold replacer at 1. rewrite Hv, Hcid, Hctor, Hx, Hy.
    cbn [andb res_bind serialize_members SerializeJSONProperty].
    rewrite !replacer_passes by reflexivity. reflexivity. }
  split; [exact Hs|].
  unfold round_trip. rewrite Hs. simpl. unfold JSON_parse.
  cbn [InternalizeJSONProperty].
  rewrite (reviver_passes h properties "x" (VNum (Int x))) by reflexivity.
  rewrite (reviver_passes h properties "y" (VNum (Int y))) by reflexivity.
  rewrite (reviver_passes h properties "jsonClass" (VStr "Vector2"))
    by reflexivity.
  reflexivity.
Qed.

Lemma X4_witness :
  constructor_named [] "Vector2"
    (VObj "Vector2" [("x", VNum (Int 3)); ("y", VNum (Int (-4)))])
  = Val true
  /\ round_trip 2 [] []
       (VObj "Vector2" [("x", VNum (Int 3)); ("y", VNum (Int (-4)))])
     = Val (VObj "Object" [("x", VNum (Int 3)); ("y", VNum (Int (-4)))]).
Proof.
  split; [reflexivity|].
  exact (proj2 (X4_vector2_round_trip 0 [] []
                  (VObj "Vector2" [("x", VNum (Int 3)); ("y", VNum (Int (-4)))])
                  3 (-4) eq_refl eq_refl eq_refl eq_refl)).
Defined.




(** ** Playback in steps *)

Lemma due_run_le_length (t : Z) (l : list Entry) :
  (due_run t l <= length l)%nat.
Proof.
  induction l as [|e l IH]; simpl; [lia|].
  destruct (e_time e <=? t); simpl; lia.
Qed.

Lemma due_run_mono (t1 t2 : Z) (l : list Entry) :
  t1 <= t2 -> (due_run t1 l <= due_run t2 l)%nat.
Proof.
  intros Ht. induction l as [|e l IH]; simpl; [lia|].
  destruct (e_time e <=? t1) eqn:H1; [|lia].
  apply Z.leb_le in H1.
  replace (e_time e <=? t2) with true by (symmetry; apply Z.leb_le; lia).
  lia.
Qed.

Lemma due_run_all_due (t : Z) (l : list Entry) :
  Forall (fun e => e_time e <= t) (take (due_run t l) l).
Proof.
  induction l as [|e l IH]; simpl; [constructor|].
  destruct (e_time e <=? t) eqn:Hle; simpl; [|constructor].
  constructor; [now apply Z.leb_le|exact IH].
Qed.

Section PlaybackFacts.
Context {C : Type} `{Collection C}.
Variable trigger : nat -> val -> M (C := C) unit.

(** The cursor a call returns does not depend on the state. *)
Lemma stepUntil_returns_run (logArray : list Entry) (t : Z) (i k : nat)
    (w w' : world) :
  stepUntil trigger logArray t i w = Returns k w' ->
  k = (i + due_run t (drop i logArray))%nat.
Proof.
  rewrite (stepUntil_run trigger logArray t (length logArray - i) i w (le_n _)).
  unfold bind, ret. destruct (replay_from _ _ _ _); [|discriminate].
  now intros [= <- _].
Qed.

(** X6. Playback in steps is playback at once: a call up to [t1] followed
    by a call up to a later [t2] from the cursor the first returned does
    what one call up to [t2] does, to the state and to the cursor, and
    throws where it throws. *)
Theorem X6_stepUntil_in_steps
    (logArray : list Entry) (t1 t2 : Z) (logIndex : nat) (w : world) :
  t1 <= t2 ->
  bind (stepUntil trigger logArray t1 logIndex)
       (fun k => stepUntil trigger logArray t2 k) w
  = stepUntil trigger logArray t2 logIndex w.
Proof.
  intros Ht.
  remember (length logArray - logIndex)%nat as n eqn:Hn.
  assert (Hle : (length logArray - logIndex <= n)%nat) by lia. clear Hn.
  revert logIndex w Hle.
  induction n as [|n IH]; intros i w Hle; unfold bind at 1;
    rewrite (stepUntil_unfold trigger logArray t1 i w).
  - now rewrite lookup_ge_None_2 by lia.
  - destruct (logArray !! i) as [e|] eqn:He; [|reflexivity].
    destruct (e_time e <=? t1) eqn:H1; [|reflexivity].
    apply Z.leb_le in H1.
    rewrite (stepUntil_unfold trigger logArray t2 i w), He.
    replace (e_time e <=? t2) with true by (symmetry; apply Z.leb_le; lia).
    unfold bind at 1 2. destruct (replay trigger i e w) as [u w1|err w1];
      [|reflexivity].
    exact (IH (S i) w1 ltac:(lia)).
Qed.

(** X7. The cursor stays within the log: a call whose cursor is at or
    past the end returns the cursor and leaves the state as it is, and a
    call that returns never returns more than the larger of its cursor
    and the length of the log. *)
Theorem X7_stepUntil_cursor_bounds
    (logArray : list Entry) (playbackTime : Z) (logIndex : nat) (w : world) :
  ((length logArray <= logIndex)%nat ->
   stepUntil trigger logArray playbackTime logIndex w = Returns logIndex w)
  /\ (forall k w',
         stepUntil trigger logArray playbackTime logIndex w = Returns k w' ->
         (logIndex <= k <= Nat.max logIndex (length logArray))%nat).
Proof.
  split.
  - intros Hend. rewrite stepUntil_unfold. now rewrite lookup_ge_None_2 by lia.
  - intros k w' Hret. apply stepUntil_returns_run in Hret as ->.
    pose proof (due_run_le_length playbackTime (drop logIndex logArray)) as Hr.
    rewrite length_drop in Hr. lia.
Qed.

(** X8. A later target time never gives an earlier cursor: two calls on
    the same log from the same cursor, in whatever states, that both
    return, return cursors in the order of their target times. *)
Theorem X8_stepUntil_monotone_in_time
    (logArray : list Entry) (t1 t2 : Z) (logIndex k1 k2 : nat)
    (w1 w1' w2 w2' : world) :
  t1 <= t2 ->
  stepUntil trigger logArray t1 logIndex w1 = Returns k1 w1' ->
  stepUntil trigger logArray t2 logIndex w2 = Returns k2 w2' ->
  (k1 <= k2)%nat.
Proof.
  intros Ht H1 H2.
  apply stepUntil_returns_run in H1 as ->.
  apply stepUntil_returns_run in H2 as ->.
  pose proof (due_run_mono t1 t2 (drop logIndex logArray) Ht). lia.
Qed.

(** X10. Whatever the order of the log, a call replays the run of
    consecutive due entries that starts at the cursor, and nothing after
    it: every entry of the run is due, the entry after the run, when there
    is one, is not, and entries behind that one stay unreplayed in this
    call even when they are due. *)
Theorem X10_stepUntil_replays_the_due_run
    (logArray : list Entry) (playbackTime : Z) (logIndex : nat) (w : world) :
  stepUntil trigger logArray playbackTime logIndex w
  = bind (replay_from trigger logIndex
            (take (due_run playbackTime (drop logIndex logArray))
                  (drop logIndex logArray)))
         (fun _ =>
            ret (logIndex + due_run playbackTime (drop logIndex logArray))%nat)
         w
  /\ Forall (fun e => e_time e <= playbackTime)
       (take (due_run playbackTime (drop logIndex logArray))
             (drop logIndex logArray))
  /\ forall e,
       logArray !! (logIndex + due_run playbackTime (drop logIndex logArray))%nat
       = Some e ->
       playbackTime < e_time e.
Proof.
  split; [|split].
  - apply (stepUntil_run trigger logArray playbackTime
             (length logArray - logIndex)). lia.
  - apply due_run_all_due.
  - apply due_run_stop.
Qed.

(** The diagnostics of a run of [change] entries that replays. *)
Lemma replay_from_prints (i : nat) (es : list Entry) :
  Forall (fun e => e_action e = "change") es ->
  forall (w w' : world),
    replay_from trigger i es w = Returns tt w' ->
    console w' = (console w ++ missing_values i es)%list.
Proof.
  intros Hall. revert i.
  induction Hall as [|e es Ha Hall IH]; intros i w w'; simpl.
  - intros [= <-]. now rewrite app_nil_r.
  - unfold bind at 1. unfold replay. rewrite Ha. simpl.
    destruct (e_value e) as [text|].
    + unfold bind, gets.
      destruct (array_get (properties (log w)) (e_cid e)); simpl;
        [|discriminate].
      intros Hrest. now rewrite (IH _ _ _ Hrest).
    + simpl. intros Hrest. rewrite (IH _ _ _ Hrest). simpl.
      now rewrite <- app_assoc.
Qed.

(** X11. On a log of [change] entries a call that returns has printed
    exactly one diagnostic for each replayed entry without a value, in
    log order, and nothing else. *)
Theorem X11_stepUntil_prints_missing_values
    (logArray : list Entry) (playbackTime : Z) (logIndex k : nat)
    (w w' : world) :
  Forall (fun e => e_action e = "change") logArray ->
  stepUntil trigger logArray playbackTime logIndex w = Returns k w' ->
  console w'
  = (console w
       ++ missing_values logIndex
            (take (k - logIndex) (drop logIndex logArray)))%list.
Proof.
  intros Hall Hret.
  pose proof (stepUntil_returns_run _ _ _ _ _ _ Hret) as Hk.
  rewrite (stepUntil_run trigger logArray playbackTime
             (length logArray - logIndex) logIndex w (le_n _)) in Hret.
  unfold bind, ret in Hret.
  destruct (replay_from trigger logIndex _ w) as [[] w1|] eqn:Hrun;
    [|discriminate].
  injection Hret as _ <-.
  replace (k - logIndex)%nat
    with (due_run playbackTime (drop logIndex logArray)) by lia.
  eapply replay_from_prints; [|exact Hrun].
  apply Forall_take, Forall_drop, Hall.
Qed.
End PlaybackFacts.

(** ** Registration *)

(** X12. With recording enabled, [registerProperty] appends the property
    to the registry, so that the registry holds it at the old length and
    keeps every earlier slot; it subscribes one listener, which carries
    that index, to the property; and it records nothing: the entry log is
    as before. *)
Theorem X12_registerProperty_appends
    (C : Type) (property : nat) (w : world (C := C)) :
  enabled (log w) = true ->
  exists w',
    registerProperty property w = Returns tt w'
    /\ properties (log w') !! length (properties (log w)) = Some property
    /\ length (properties (log w')) = S (length (properties (log w)))
    /\ (forall i l,
           properties (log w) !! i = Some l -> properties (log w') !! i = Some l)
    /\ store w'
       = alter (add_listener (RecordChange (length (properties (log w)))))
           property (store w)
    /\ entries (log w') = entries (log w)
    /\ collections (log w') = collections (log w).
Proof.
  intros Hon. unfold registerProperty, bind, gets. rewrite Hon. simpl.
  eexists. split; [reflexivity|]. simpl.
  split; [|split; [|split; [|repeat split]]].
  - rewrite lookup_app_r by lia. now rewrite Nat.sub_diag.
  - rewrite length_app. simpl. lia.
  - intros i l Hi. now apply lookup_app_l_Some.
Qed.

(** X13. Registration keeps the registry and the listeners in agreement:
    when every recording listener of every live object carries an index
    at which the registry holds that object, this still holds after
    [registerProperty], enabled or not. *)
Theorem X13_registerProperty_keeps_agreement
    (C : Type) (property : nat) (w : world (C := C)) :
  listeners_agree w ->
  listeners_agree (final (registerProperty property w)).
Proof.
  intros Hagree. unfold registerProperty, bind, gets.
  destruct (enabled (log w)); simpl; [|exact Hagree].
  intros l i o. simpl. intros Hl Hin.
  destruct (Nat.eq_dec property l) as [->|Hne].
  - rewrite list_lookup_alter_eq in Hl.
    destruct (store w !! l) as [o0|] eqn:Ho; [|discriminate].
    injection Hl as <-. simpl in Hin. apply in_app_or in Hin as [Hin|Hin].
    + apply lookup_app_l_Some. eapply Hagree; eauto.
    + destruct Hin as [[= <-]|[]].
      rewrite lookup_app_r by lia. now rewrite Nat.sub_diag.
  - rewrite list_lookup_alter_ne in Hl by exact Hne.
    apply lookup_app_l_Some. eapply Hagree; eauto.
Qed.

(** X14. After [clear] the ids start again at 0 while the listeners stay:
    with recording enabled, [clear] followed by [registerProperty] leaves
    a registry that holds just the new property, subscribes to it a
    listener with index 0, removes no listener from any live object, and
    keeps the entry log. *)
Theorem X14_clear_restarts_ids
    (C : Type) (property : nat) (w : world (C := C)) :
  enabled (log w) = true ->
  exists w',
    bind clear (fun _ => registerProperty property) w = Returns tt w'
    /\ properties (log w') = [property]
    /\ store w' = alter (add_listener (RecordChange 0)) property (store w)
    /\ entries (log w') = entries (log w).
Proof.
  intros Hon. unfold clear, registerProperty, modify, gets.
  unfold bind at 1 2. simpl. rewrite Hon. simpl.
  eexists. repeat split.
Qed.

(** ** Values that pass both hooks *)

Section InertValues.
Variable h : heap.
Variable properties : list nat.

Lemma inert_replacer (d : nat) (key : string) (v : val) :
  inert_within d v = true -> replacer h key v = Val v.
Proof.
  destruct d as [|d]; [discriminate|].
  destruct v as [| |b|[z| | |]|s|elems|c fs|l]; try discriminate;
    intros Hv; try (apply replacer_passes; reflexivity).
  simpl in Hv. repeat (apply andb_true_iff in Hv as [Hv ?]).
  apply String.eqb_eq in Hv as ->.
  apply replacer_passes.
  - simpl. now apply negb_true_iff.
  - unfold constructor_named. simpl.
    match goal with Hl : lacks _ _ = true |- _ => unfold lacks in Hl end.
    destruct (own_field "constructor" fs); [discriminate|reflexivity].
Qed.

Lemma inert_reviver (d : nat) (name : string) (v : val) :
  inert_within d v = true -> reviver h properties name v = v.
Proof.
  destruct d as [|d]; [discriminate|].
  destruct v as [| |b|[z| | |]|s|elems|c fs|l]; try discriminate;
    intros Hv; try (apply reviver_passes; reflexivity).
  simpl in Hv. repeat (apply andb_true_iff in Hv as [Hv ?]).
  unfold reviver. simpl.
  repeat match goal with
         | Hn : negb _ = true |- _ => apply negb_true_iff in Hn; try rewrite Hn
         end.
  now rewrite !andb_false_r.
Qed.

Lemma inert_members_defined (d : nat) (fs : list (string * val)) :
  forallb (fun kv => inert_within d (snd kv)) fs = true ->
  List.filter is_defined fs = fs.
Proof.
  induction fs as [|[k v] fs IH]; simpl; [reflexivity|].
  intros Hv. apply andb_true_iff in Hv as [Hv Hfs].
  replace (is_defined (k, v)) with true.
  - now rewrite IH.
  - destruct d; [discriminate|]. now destruct v.
Qed.

(** An inert value is written in full, and what was written reads back
    as the value. *)
Lemma inert_serialize :
  forall (d : nat) (v : val) (stack : list nat) (key : string),
    inert_within d v = true ->
    exists j,
      SerializeJSONProperty d h (replacer h) stack key v = Val (Some j)
      /\ forall name,
           InternalizeJSONProperty (reviver h properties) name j = v.
Proof.
  induction d as [|d IH]; intros v stack key Hv; [discriminate|].
  pose proof (inert_replacer _ key _ Hv) as Hrp.
  pose proof (fun name => inert_reviver _ name _ Hv) as Hrv.
  cbn [SerializeJSONProperty]. rewrite Hrp. cbn [res_bind].
  destruct v as [| |b|[z| | |]|s|elems|c fs|l]; try discriminate.
  - exists JNull. split; [reflexivity|]. intros name. apply Hrv.
  - exists (JBool b). split; [reflexivity|]. intros name. apply Hrv.
  - exists (JNum z). split; [reflexivity|]. intros name. apply Hrv.
  - exists (JStr s). split; [reflexivity|]. intros name. apply Hrv.
  - assert (Helems : forall i,
               exists js,
                 serialize_elements
                   (SerializeJSONProperty d h (replacer h) stack) i elems
                 = Val js
                 /\ internalize_elements
                      (InternalizeJSONProperty (reviver h properties)) i js
                    = elems).
    { simpl in Hv. clear Hrp Hrv.
      induction elems as [|x elems IHe]; intros i.
      - exists []. split; reflexivity.
      - simpl in Hv. apply andb_true_iff in Hv as [Hx Hrest].
        destruct (IH x stack (index_key i) Hx) as (j & Hj & Hback).
        destruct (IHe Hrest (S i)) as (js & Hjs & Hbacks).
        exists (j :: js). simpl. rewrite Hj. simpl. rewrite Hjs. simpl.
        split; [reflexivity|]. now rewrite Hback, Hbacks. }
    destruct (Helems 0%nat) as (js & Hjs & Hback).
    exists (JArr js). rewrite Hjs. split; [reflexivity|].
    intros name. rewrite Internalize_array, Hback. apply Hrv.
  - assert (Hfs : exists ms,
               serialize_members
                 (SerializeJSONProperty d h (replacer h) stack) fs
               = Val ms
               /\ internalize_members
                    (InternalizeJSONProperty (reviver h properties)) ms
                  = fs).
    { simpl in Hv. apply andb_true_iff in Hv as [_ Hv]. clear Hrp Hrv.
      induction fs as [|[k x] fs IHf].
      - exists []. split; reflexivity.
      - simpl in Hv. apply andb_true_iff in Hv as [Hx Hrest].
        destruct (IH x stack k Hx) as (j & Hj & Hback).
        destruct (IHf Hrest) as (ms & Hms & Hbacks).
        exists ((k, j) :: ms). simpl. rewrite Hj. simpl. rewrite Hms. simpl.
        split; [reflexivity|]. now rewrite Hback, Hbacks. }
    destruct Hfs as (ms & Hms & Hback).
    exists (JObj ms). rewrite Hms. split; [reflexivity|].
    intros name. rewrite Internalize_object, Hback.
    simpl in Hv. repeat (apply andb_true_iff in Hv as [Hv ?]).
    apply String.eqb_eq in Hv as ->.
    rewrite (inert_members_defined d fs) by assumption. apply Hrv.
Qed.

(** X15. Every other value is written as it is and read back as it was:
    a [null], a boolean, a finite number, a string, and any array or
    plain object built from these without an own field named
    [constructor], without a truthy [cid] and without a [jsonClass] of
    ['Property'] or ['Vector2'], comes back from the round trip equal,
    whatever the registry holds, once the call stack covers its
    nesting. *)
Theorem X15_inert_round_trip (depth : nat) (v : val) :
  inert_within depth v = true ->
  round_trip depth h properties v = Val v.
Proof.
  intros Hv. unfold round_trip, JSON_stringify, JSON_parse.
  destruct (inert_serialize depth v [] "" Hv) as (j & -> & Hback).
  simpl. now rewrite Hback.
Qed.
End InertValues.

(** ** The round trip of the claim *)

Lemma inert_within_mono :
  forall (d d' : nat) (v : val),
    (d <= d')%nat -> inert_within d v = true -> inert_within d' v = true.
Proof.
  induction d as [|d IH]; intros d' v Hle Hv; [discriminate|].
  destruct d' as [|d']; [lia|].
  destruct v as [| |b|[z| | |]|s|elems|c fs|l]; try discriminate;
    try reflexivity; simpl in *.
  - induction elems as [|x elems IHe]; simpl in *; [reflexivity|].
    apply andb_true_iff in Hv as [Hx Hrest].
    rewrite (IH d' x) by (lia || assumption). now apply IHe.
  - repeat (apply andb_true_iff in Hv as [Hv ?]).
    repeat (apply andb_true_iff; split); try assumption.
    match goal with
    | Hf : forallb _ fs = true |- _ =>
        clear - Hf IH Hle; induction fs as [|[k x] fs IHf]; simpl in *;
          [reflexivity|];
          apply andb_true_iff in Hf as [Hx Hrest];
          rewrite (IH d' x) by (lia || assumption); now apply IHf
    end.
Qed.

(** A key that denotes an array index passes both hooks. *)
Lemma index_key_inert :
  forall (k : val) (i : nat),
    array_index k = Some i -> inert_within (key_depth k) k = true.
Proof.
  fix IH 1. intros k i.
  destruct k as [| |b|[z| | |]|s|elems|c fs|l]; try discriminate;
    try reflexivity.
  destruct elems as [|x [|y elems]]; try discriminate.
  simpl. intros Hx. now rewrite (IH x i Hx).
Qed.

(** C6, as the code has it.  Against any registry state: a [null], a
    boolean, a finite number or a string comes back equal; a live
    property whose [cid] field is truthy and names the slot at which the
    registry holds this property comes back as the very same live
    handle, once the call stack covers the reference and its [cid]. *)
Theorem C6_round_trip (depth : nat) (h : heap) (properties : list nat) :
  (forall v, plain v = true -> round_trip (S depth) h properties v = Val v)
  /\ (forall (l : nat) (c : val),
         get_field h (VRef l) "cid" = c ->
         truthy c = true ->
         array_get properties c = Some l ->
         round_trip (S (key_depth c + depth)) h properties (VRef l)
         = Val (VRef l)).
Proof.
  split.
  - intros v Hv.
    destruct v as [| |b|[z| | |]|s|?|? ?|?]; try discriminate;
      unfold round_trip, JSON_stringify; cbn [SerializeJSONProperty];
      rewrite replacer_passes by reflexivity; simpl;
      unfold JSON_parse; simpl; now rewrite reviver_passes.
  - intros l c Hget Htrue Hslot.
    assert (Hinert : inert_within (key_depth c + depth) c = true).
    { unfold array_get in Hslot.
      destruct (array_index c) as [i|] eqn:Hi; [|discriminate].
      apply (inert_within_mono (key_depth c)); [lia|].
      exact (index_key_inert c i Hi). }
    destruct (inert_serialize h properties _ c [] "cid" Hinert)
      as (j & Hj & Hback).
    assert (Hdepth : exists d, (key_depth c + depth)%nat = S d)
      by (destruct c as [| |?|?|?|[|? [|? ?]]|? ?|?]; simpl; eauto).
    destruct Hdepth as [d Hd].
    unfold round_trip, JSON_stringify. rewrite SerializeJSONProperty_step.
    unfold replacer at 1. rewrite Hget, Htrue.
    cbn [truthy andb res_bind property_reference serialize_members].
    rewrite Hj. rewrite Hd at 1. rewrite SerializeJSONProperty_step.
    rewrite (replacer_passes h "jsonClass" (VStr "Property")) by reflexivity.
    cbn [res_bind]. unfold JSON_parse. rewrite Internalize_object.
    cbn [internalize_members]. rewrite Hback.
    cbn [InternalizeJSONProperty].
    rewrite (reviver_passes h properties "jsonClass" (VStr "Property"))
      by reflexivity.
    assert (Hdefined : is_defined ("cid", c) = true)
      by (destruct c; try reflexivity; discriminate).
    cbn [List.filter]. rewrite Hdefined.
    replace (is_defined ("jsonClass", VStr "Property")) with true
      by reflexivity.
    unfold reviver. simpl get_field.
    cbn [truthy is_string String.eqb Ascii.eqb Bool.eqb andb negb].
    now rewrite Hslot.
Qed.

Lemma C6_witness :
  plain (VStr "left") = true
  /\ round_trip 1 (store indexed_world) (properties (log indexed_world))
       (VStr "left") = Val (VStr "left")
  /\ get_field (store indexed_world) (VRef 1) "cid" = VNum (Int 1)
  /\ array_get (properties (log indexed_world)) (VNum (Int 1)) = Some 1%nat
  /\ round_trip 2 (store indexed_world) (properties (log indexed_world))
       (VRef 1) = Val (VRef 1).
Proof.
  destruct (C6_round_trip 0 (store indexed_world)
              (properties (log indexed_world))) as [Hplain Hproperty].
  split; [reflexivity|]. split; [exact (Hplain (VStr "left") eq_refl)|].
  split; [reflexivity|]. split; [reflexivity|].
  exact (Hproperty 1%nat (VNum (Int 1)) eq_refl eq_refl eq_refl).
Defined.

(** C6 as stated fails on each side.  The scalars [undefined], [NaN],
    [Infinity] and [-Infinity] do not come back: parsing [undefined] is a
    syntax error and the others come back as [null].  A property that
    only [registerProperty] has touched, which writes no [cid], comes back
    as a copy of its fields, at index 0 and at index 1; so does the
    property registered at id 0 whose [cid] is 0; and a property whose
    [cid] is the id of another slot comes back as the property of that
    slot. *)
Lemma C6_counterexample :
  (round_trip 4 [] [] VUndefined = Exn SyntaxError
   /\ round_trip 4 [] [] (VNum NaN) = Val VNull
   /\ round_trip 4 [] [] (VNum PosInfinity) = Val VNull
   /\ round_trip 4 [] [] (VNum NegInfinity) = Val VNull)
  /\ (properties (log two_registered) = [0; 1]%nat
      /\ round_trip 4 (store two_registered) (properties (log two_registered))
           (VRef 0)
         = Val (VObj "Object" [("value", VNum (Int 1))])
      /\ round_trip 4 (store two_registered) (properties (log two_registered))
           (VRef 1)
         = Val (VObj "Object" [("value", VNum (Int 5))]))
  /\ (properties (log indexed_world) !! 0%nat = Some 0%nat
      /\ get_field (store indexed_world) (VRef 0) "cid" = VNum (Int 0)
      /\ round_trip 4 (store indexed_world) (properties (log indexed_world))
           (VRef 0)
         = Val (VObj "Object" [("cid", VNum (Int 0)); ("value", VNum (Int 1))]))
  /\ (properties (log crossed_world) = [0; 1]%nat
      /\ get_field (store crossed_world) (VRef 0) "cid" = VNum (Int 1)
      /\ round_trip 4 (store crossed_world) (properties (log crossed_world))
           (VRef 0)
         = Val (VRef 1)).
Proof. repeat split. Qed.

(** ** References and cycles *)

(** X16. Whatever else a value is or holds, a truthy number in its [cid]
    field, any number but 0 and NaN, makes the replacer write it as the
    typed reference alone, also when it is a Vector2.  For a finite [cid]
    the round trip yields the property the registry holds at that id,
    and [undefined] when it holds none; an infinite [cid] is written as
    [null] and the round trip yields [undefined]. *)
Theorem X16_cid_makes_a_reference
    (depth : nat) (h : heap) (properties : list nat) (v : val) (n : number) :
  get_field h v "cid" = VNum n ->
  truthy (VNum n) = true ->
  JSON_stringify (S (S depth)) h (replacer h) v
  = Val (Some (JObj [("jsonClass", JStr "Property"); ("cid", number_text n)]))
  /\ round_trip (S (S depth)) h properties v
     = Val (match n with
            | Int cid =>
                match array_get properties (VNum (Int cid)) with
                | Some l => VRef l
                | None => VUndefined
                end
            | _ => VUndefined
            end).
Proof.
  intros Hcid Htrue.
  assert (Hobj : truthy v = true)
    by (destruct v as [| |?|[?| | |]|?|?|? ?|?]; try discriminate; reflexivity).
  assert (Hs : JSON_stringify (S (S depth)) h (replacer h) v
               = Val (Some (JObj [("jsonClass", JStr "Property");
                                  ("cid", number_text n)]))).
  { unfold JSON_stringify. cbn [SerializeJSONProperty].
    unfold replacer at 1. rewrite Hcid, Hobj, Htrue.
    cbn [andb res_bind property_reference serialize_members
         SerializeJSONProperty].
    rewrite !replacer_passes by reflexivity.
    destruct n; reflexivity. }
  split; [exact Hs|].
  unfold round_trip. rewrite Hs. simpl. unfold JSON_parse.
  rewrite Internalize_object. cbn [internalize_members].
  destruct n as [cid| | |]; try discriminate;
    cbn [number_text InternalizeJSONProperty];
    rewrite (reviver_passes h properties "jsonClass" (VStr "Property"))
      by reflexivity;
    rewrite (reviver_passes h properties "cid") by reflexivity;
    reflexivity.
Qed.

Lemma internalize_members_app (intern : string -> json -> val)
    (ms1 ms2 : list (string * json)) :
  internalize_members intern (ms1 ++ ms2)
  = (internalize_members intern ms1 ++ internalize_members intern ms2)%list.
Proof.
  induction ms1 as [|[k j] ms1 IH]; simpl; [reflexivity|]. now rewrite IH.
Qed.

(** X17. A typed reference to an id at which the registry holds nothing
    is revived as [undefined], and as a member of an object it is dropped:
    the object reads back as if the member had not been written. *)
Theorem X17_unregistered_reference_is_dropped
    (h : heap) (properties : list nat) (cid : Z) (k : string)
    (ms1 ms2 : list (string * json)) :
  array_get properties (VNum (Int cid)) = None ->
  JSON_parse (reference_text cid) (reviver h properties) = VUndefined
  /\ JSON_parse (JObj (ms1 ++ (k, reference_text cid) :: ms2))
       (reviver h properties)
     = JSON_parse (JObj (ms1 ++ ms2)) (reviver h properties).
Proof.
  intros Hnone.
  assert (Href : forall name,
             InternalizeJSONProperty (reviver h properties) name
               (reference_text cid) = VUndefined).
  { intros name. unfold reference_text. rewrite Internalize_object.
    cbn [internalize_members InternalizeJSONProperty].
    rewrite (reviver_passes h properties "jsonClass" (VStr "Property"))
      by reflexivity.
    rewrite (reviver_passes h properties "cid" (VNum (Int cid)))
      by reflexivity.
    unfold reviver. simpl. now rewrite Hnone. }
  split; [apply Href|].
  unfold JSON_parse. rewrite !Internalize_object, !internalize_members_app.
  cbn [internalize_members]. rewrite Href, !List.filter_app. reflexivity.
Qed.

(** Members that are written before a member that throws do not save the
    object. *)
Lemma serialize_members_throws (ser : string -> val -> res (option json))
    (pre rest : list (string * val)) (k : string) (x : val) (e : error) :
  Forall (fun kv => exists j, ser (fst kv) (snd kv) = Val j) pre ->
  ser k x = Exn e ->
  serialize_members ser (pre ++ (k, x) :: rest) = Exn e.
Proof.
  intros Hpre Hx. induction Hpre as [|[k' v'] pre [j Hj] Hpre IH]; simpl.
  - now rewrite Hx.
  - simpl in Hj. rewrite Hj. simpl. now rewrite IH.
Qed.

(** X18. A live object that is not taken for a property (no truthy
    [cid]) and is not a Vector2, and that holds itself in a field behind
    fields of plain values, cannot be written: the serializer throws a
    TypeError, and so does the recording listener that is called with it,
    which then appends no entry. *)
Theorem X18_self_reference_throws
    (depth : nat) (h : heap) (l : nat) (o : object) (k : string)
    (pre rest : list (string * val)) :
  h !! l = Some o ->
  truthy (assoc "cid" (o_fields o)) = false ->
  constructor_named h "Vector2" (VRef l) = Val false ->
  o_fields o = (pre ++ (k, VRef l) :: rest)%list ->
  forallb (fun kv => plain (snd kv)) pre = true ->
  JSON_stringify (S (S depth)) h (replacer h) (VRef l) = Exn TypeError
  /\ forall (C : Type) (w : world (C := C)) (now : Z) (index : nat),
       store w = h ->
       call_listener (S (S depth)) now (RecordChange index) (VRef l) w
       = Throws TypeError w.
Proof.
  intros Hl Hcid Hctor Hfields Hpre.
  assert (Hpass : forall key, replacer h key (VRef l) = Val (VRef l)).
  { intros key. apply replacer_passes; [|exact Hctor]. simpl. now rewrite Hl. }
  assert (Hs : JSON_stringify (S (S depth)) h (replacer h) (VRef l)
               = Exn TypeError).
  { unfold JSON_stringify. rewrite SerializeJSONProperty_step, Hpass.
    cbn [res_bind existsb]. rewrite Hl, Hfields.
    rewrite (serialize_members_throws _ pre rest k (VRef l) TypeError);
      [reflexivity| |].
    - apply Forall_forall. intros [k' v'] Hin. cbn [fst snd].
      rewrite forallb_forall in Hpre.
      specialize (Hpre (k', v') (proj1 (list_elem_of_In _ _) Hin)).
      simpl in Hpre. rewrite SerializeJSONProperty_step.
      destruct v' as [| |b|[z| | |]|s|?|? ?|?]; try discriminate;
        rewrite replacer_passes by reflexivity; eexists; reflexivity.
    - rewrite SerializeJSONProperty_step, Hpass. cbn [res_bind existsb].
      now rewrite Nat.eqb_refl. }
  split; [exact Hs|].
  intros C w now index Hstore. unfold call_listener, bind, gets.
  rewrite Hstore, Hs. reflexivity.
Qed.

(** ** NumberPropertyIO.setValue *)

(** X19. Whatever the parent adapter does, [setValue] leaves on the
    property the [units], [range] and [valueType] of the state object and
    every other field as the parent's [setValue] left it; so setting a
    property from [fromStateObject] of [toStateObject] of another number
    property gives it the three fields of that property. *)
Theorem X19_setValue_copies_three_fields
    (parent_set : gmap string val -> gmap string val -> gmap string val)
    (parent_from parent_to : gmap string val -> gmap string val)
    (p q s : gmap string val) (k : string) :
  (k ∈ number_fields ->
     NumberPropertyIO.setValue parent_set p s !! k
     = Some (NumberPropertyIO.field s k)
     /\ NumberPropertyIO.field
          (NumberPropertyIO.setValue parent_set p
             (NumberPropertyIO.fromStateObject parent_from
                (NumberPropertyIO.toStateObject parent_to q))) k
        = NumberPropertyIO.field q k)
  /\ (k ∉ number_fields ->
       NumberPropertyIO.setValue parent_set p s !! k = parent_set p s !! k).
Proof.
  unfold NumberPropertyIO.setValue, NumberPropertyIO.fromStateObject,
    NumberPropertyIO.toStateObject, NumberPropertyIO.field, number_fields.
  split; intros Hk.
  - repeat (apply elem_of_cons in Hk as [->|Hk]); [| | |by inversion Hk];
      split; simplify_map_eq; reflexivity.
  - assert (k <> "valueType" /\ k <> "units" /\ k <> "range") as (H1 & H2 & H3).
    { repeat split; intros ->; apply Hk; set_solver. }
    now rewrite !lookup_insert_ne by congruence.
Qed.

(** ** The further statements at the sample session *)

Lemma X6_witness :
  15 <= 20
  /\ bind (stepUntil no_trigger playable_log 15 0)
          (fun k => stepUntil no_trigger playable_log 20 k) recorded_world
     = stepUntil no_trigger playable_log 20 0 recorded_world.
Proof.
  assert (Ht : 15 <= 20) by lia.
  split; [exact Ht|].
  exact (X6_stepUntil_in_steps no_trigger playable_log 15 20 0
           recorded_world Ht).
Defined.

Lemma X7_witness :
  (length playable_log <= 2)%nat
  /\ stepUntil no_trigger playable_log 15 2 recorded_world
     = Returns 2%nat recorded_world.
Proof.
  assert (Hend : (length playable_log <= 2)%nat) by (simpl; lia).
  split; [exact Hend|].
  exact (proj1 (X7_stepUntil_cursor_bounds no_trigger playable_log 15 2
                  recorded_world) Hend).
Defined.

Lemma X8_witness :
  15 <= 20
  /\ stepUntil no_trigger playable_log 15 0 recorded_world
     = Returns 1%nat (final (stepUntil no_trigger playable_log 15 0
                               recorded_world))
  /\ stepUntil no_trigger playable_log 20 0 indexed_world
     = Returns 2%nat (final (stepUntil no_trigger playable_log 20 0
                               indexed_world))
  /\ (1 <= 2)%nat.
Proof.
  assert (Ht : 15 <= 20) by lia.
  split; [exact Ht|]. split; [reflexivity|]. split; [reflexivity|].
  exact (X8_stepUntil_monotone_in_time no_trigger playable_log 15 20 0 1 2
           recorded_world _ indexed_world _ Ht eq_refl eq_refl).
Defined.

Lemma X11_witness :
  Forall (fun e => e_action e = "change") gappy_log
  /\ stepUntil no_trigger gappy_log 15 0 recorded_world
     = Returns 2%nat (final (stepUntil no_trigger gappy_log 15 0
                               recorded_world))
  /\ console (final (stepUntil no_trigger gappy_log 15 0 recorded_world))
     = [{| d_message := "missing value for index: "; d_logIndex := 0;
           d_entry := change_by_cid 5 0 None |}].
Proof.
  assert (Hall : Forall (fun e => e_action e = "change") gappy_log)
    by (repeat constructor).
  split; [exact Hall|]. split; [reflexivity|].
  exact (X11_stepUntil_prints_missing_values no_trigger gappy_log 15 0 2
           recorded_world _ Hall eq_refl).
Defined.

Lemma X12_witness :
  enabled (log recorded_world) = true
  /\ exists w',
       registerProperty 0%nat recorded_world = Returns tt w'
       /\ properties (log w') = [0; 0]%nat
       /\ entries (log w') = sample_log.
Proof.
  destruct (X12_registerProperty_appends (list val) 0%nat recorded_world
              eq_refl) as (w' & Hr & _ & _ & _ & _ & He & _).
  split; [reflexivity|]. exists w'.
  split; [exact Hr|]. split; [|exact He].
  injection Hr as <-. reflexivity.
Defined.

Lemma X13_witness :
  listeners_agree sample_world
  /\ listeners_agree (final (registerProperty 0%nat sample_world)).
Proof.
  assert (Hagree : listeners_agree sample_world).
  { intros [|[|l]] i o Hl Hin; try discriminate.
    injection Hl as <-. destruct Hin. }
  split; [exact Hagree|].
  exact (X13_registerProperty_keeps_agreement (list val) 0%nat sample_world
           Hagree).
Defined.

Lemma X14_witness :
  enabled (log recorded_world) = true
  /\ exists w',
       bind clear (fun _ => registerProperty 0%nat) recorded_world
       = Returns tt w'
       /\ properties (log w') = [0%nat]
       /\ store w'
          = [{| o_ctor := "Property"; o_fields := [("value", VNum (Int 3))];
                o_listeners := [RecordChange 0; RecordChange 0] |}]
       /\ entries (log w') = sample_log.
Proof.
  destruct (X14_clear_restarts_ids (list val) 0%nat recorded_world eq_refl)
    as (w' & Hr & Hp & Hs & He).
  split; [reflexivity|]. exists w'.
  split; [exact Hr|]. split; [exact Hp|]. split; [exact Hs|exact He].
Defined.

Lemma X15_witness :
  inert_within 3 nested_value = true
  /\ round_trip 3 (store indexed_world) (properties (log indexed_world))
       nested_value = Val nested_value.
Proof.
  split; [reflexivity|].
  exact (X15_inert_round_trip (store indexed_world)
           (properties (log indexed_world)) 3 nested_value eq_refl).
Defined.

Lemma X16_witness :
  get_field (store indexed_world) tagged_vector "cid" = VNum (Int 7)
  /\ truthy (VNum (Int 7)) = true
  /\ JSON_stringify 2 (store indexed_world) (replacer (store indexed_world))
       tagged_vector = Val (Some (reference_text 7))
  /\ round_trip 2 (store indexed_world) (properties (log indexed_world))
       tagged_vector = Val VUndefined.
Proof.
  split; [reflexivity|]. split; [reflexivity|].
  exact (X16_cid_makes_a_reference 0 (store indexed_world)
           (properties (log indexed_world)) tagged_vector (Int 7)
           eq_refl eq_refl).
Defined.

Lemma X17_witness :
  array_get (properties (log indexed_world)) (VNum (Int 7)) = None
  /\ JSON_parse (JObj [("n", JNum 1); ("p", reference_text 7)])
       (reviver (store indexed_world) (properties (log indexed_world)))
     = VObj "Object" [("n", VNum (Int 1))].
Proof.
  split; [reflexivity|].
  exact (proj2 (X17_unregistered_reference_is_dropped (store indexed_world)
                  (properties (log indexed_world)) 7 "p" [("n", JNum 1)] []
                  eq_refl)).
Defined.

Lemma X18_witness :
  [looped] !! 0%nat = Some looped
  /\ truthy (assoc "cid" (o_fields looped)) = false
  /\ constructor_named [looped] "Vector2" (VRef 0) = Val false
  /\ o_fields looped = ([("value", VNum (Int 1))] ++ ("self", VRef 0) :: [])%list
  /\ forallb (fun kv => plain (snd kv)) [("value", VNum (Int 1))] = true
  /\ JSON_stringify 2 [looped] (replacer [looped]) (VRef 0) = Exn TypeError.
Proof.
  repeat (split; [reflexivity|]).
  exact (proj1 (X18_self_reference_throws 0 [looped] 0 looped "self"
                  [("value", VNum (Int 1))] [] eq_refl eq_refl eq_refl eq_refl
                  eq_refl)).
Defined.

Lemma X19_witness :
  "range" ∈ number_fields
  /\ NumberPropertyIO.field
       (NumberPropertyIO.setValue set_value_only ∅
          (NumberPropertyIO.fromStateObject value_only
             (NumberPropertyIO.toStateObject value_only
                sample_number_property))) "range"
     = VObj "Range" [("min", VNum (Int 0)); ("max", VNum (Int 9))].
Proof.
  assert (Hk : "range" ∈ number_fields) by (unfold number_fields; set_solver).
  split; [exact Hk|].
  exact (proj2 (proj1 (X19_setValue_copies_three_fields set_value_only
                         value_only value_only ∅ sample_number_property ∅
                         "range") Hk)).
Defined.

(** ** Recording [undefined], and the other collection entries *)

(** X20. A change to [undefined] is recorded without a value, and such an
    entry replays in every state: the listener appends the entry with no
    [value] and touches nothing else, and its replay prints the diagnostic
    and returns without looking up any property. *)
Theorem X20_undefined_is_recorded_without_value
    (C : Type) (H : Collection C) (trigger : nat -> val -> M (C := C) unit)
    (depth : nat) (now : Z) (index logIndex : nat) (w w2 : world (C := C)) :
  (exists w',
      call_listener (S depth) now (RecordChange index) VUndefined w
      = Returns tt w'
      /\ entries (log w') = (entries (log w) ++ [change_entry now index None])%list
      /\ properties (log w') = properties (log w)
      /\ store w' = store w)
  /\ replay trigger logIndex (change_entry now index None) w2
     = Returns tt
         (with_console
            (fun out =>
               (out ++ [{| d_message := "missing value for index: ";
                           d_logIndex := logIndex;
                           d_entry := change_entry now index None |}])%list)
            w2).
Proof.
  split; [|reflexivity].
  unfold call_listener, bind, gets, JSON_stringify.
  cbn [SerializeJSONProperty].
  rewrite replacer_passes by reflexivity. simpl.
  eexists. repeat split.
Qed.


